(** * Dynamic memory manager (lab-3-memory/src/memmgr.c)

    A shallow embedding of the implicit-free-list allocator: boundary tags
    stored in raw byte-addressed memory, the three block-selection policies
    (first fit, next fit, best fit), block splitting, coalescing on free,
    heap growth through the data segment module, and the consistency check.

    Conventions of the embedding.
    - A heap word ([TYPE], unsigned long) and a pointer are 64-bit values,
      represented as [Z] in [0, 2^64); every arithmetic operation of the
      source is followed by its wrap-around ([wrap]).
    - Memory is an array of bytes indexed by address; a word access reads
      or writes eight consecutive bytes, least significant byte first.
    - The globals of memmgr.c are the fields of [mm_state], threaded
      explicitly through every operation.
    - PANIC and a failed assert end the process: operations return an
      [outcome].  The scanning loops take a bound on the number of
      iterations (fuel) and report [OutOfFuel] when the bound is reached. *)

From Stdlib Require Import ZArith List Bool Lia String.
Import ListNotations.
Local Open Scope Z_scope.

(** ** 64-bit words *)

Definition WORD_MOD : Z := 2 ^ 64.

(** Wrap-around of unsigned long / pointer arithmetic. *)
Definition wrap (x : Z) : Z := x mod WORD_MOD.

(** ** Raw memory *)

(** One byte per address.  Only the low eight bits of an entry are ever
    observed ([load_bytes] reduces modulo 256).  The model does not record
    which addresses are mapped: a word access yields a value at every
    address.  The two accesses of memmgr.c that can leave the address space
    whatever is mapped, the stores through the error value of ds_sbrk and a
    memset that runs past the last address, are treated where they occur
    ([extend], [memset]). *)
Definition memory : Type := Z -> Z.

Definition byte_of (v i : Z) : Z := (v / 2 ^ (8 * i)) mod 256.

Fixpoint load_bytes (m : memory) (p : Z) (n : nat) : Z :=
  match n with
  | O => 0
  | S k => m p mod 256 + 256 * load_bytes m (p + 1) k
  end.

Definition store_bytes (m : memory) (p v : Z) (n : Z) : memory :=
  fun a => if (p <=? a) && (a <? p + n) then byte_of v (a - p) else m a.

(** The bytes of [p, p + n) set to zero. *)
Definition memset0 (m : memory) (p n : Z) : memory :=
  fun a => if (p <=? a) && (a <? p + n) then 0 else m a.

Definition zero_memory : memory := fun _ => 0.

(** ** Outcomes *)

Inductive outcome (A : Type) : Type :=
| Ret (a : A)                 (* the call returns normally *)
| Panic (func msg : string)   (* PANIC(...): diagnostic, exit(EXIT_FAILURE) *)
| AssertFail                  (* assert(mm_initialized) failed *)
| Fault                       (* invalid access, behaviour undefined from there:
                                 call through a NULL function pointer, store
                                 through (void* )-1, memset past the last address *)
| OutOfFuel.                  (* iteration bound of the model reached *)

Arguments Ret {A} a.
Arguments Panic {A} func msg.
Arguments AssertFail {A}.
Arguments Fault {A}.
Arguments OutOfFuel {A}.

Definition bind {A B : Type} (c : outcome A) (k : A -> outcome B) : outcome B :=
  match c with
  | Ret a => k a
  | Panic f s => Panic f s
  | AssertFail => AssertFail
  | Fault => Fault
  | OutOfFuel => OutOfFuel
  end.

Notation "x <- c ;; k" := (bind c (fun x => k))
  (at level 61, c at next level, right associativity).

(** memset(p, 0, n).  The n bytes from [p] must lie inside the address
    space; a range that runs past the last address is no object, and the
    call has no defined result. *)
Definition memset (m : memory) (p n : Z) : outcome memory :=
  if p + n <=? WORD_MOD then Ret (memset0 m p n) else Fault.

(** ** Data segment (region provider) *)

(** Which address a growth request hands back. *)
Inductive sbrk_result : Type :=
| OldBreak    (* the end of the region before the extension, as sbrk(2) *)
| NewBreak.   (* the end of the region after the extension *)

(** Modelled from the spec: the Region Provider (dataseg.h / dataseg.c are
    not part of the source tree).  It supplies one contiguous growable
    region, reports its bounds ([ds_heap_stat]) and the page size
    ([ds_getpagesize]), and extends the region by a byte count ([ds_sbrk]),
    signalling failure by the error value (void* )-1.  Start and end are
    both null before first use.  The interface description says a growth
    request returns the new end address; memmgr.c uses the result of
    [ds_sbrk(xsize)] as the address of the acquired bytes and
    [ds_sbrk(0)] as the current end, as with sbrk(2).  The record carries
    the convention so that both readings are covered.  The interface lets
    a provider extend by more than the count (platform rounding); the
    provider of the model extends by the count exactly. *)
Record dataseg : Type := mk_dataseg {
  ds_start    : Z;            (* start of the region, 0 before first use *)
  ds_break    : Z;            (* current end of the region *)
  ds_limit    : Z;            (* the region cannot grow past this address *)
  ds_pagesize : Z;            (* system page size *)
  ds_convention : sbrk_result
}.

Definition SBRK_FAILED : Z := WORD_MOD - 1.   (* (void* )-1 *)

Definition ds_heap_stat (d : dataseg) : Z * Z := (ds_start d, ds_break d).

Definition ds_getpagesize (d : dataseg) : Z := ds_pagesize d.

Definition ds_sbrk (d : dataseg) (increment : Z) : Z * dataseg :=
  if ds_break d + increment <=? ds_limit d then
    let new_brk := ds_break d + increment in
    (match ds_convention d with
     | OldBreak => ds_break d
     | NewBreak => new_brk
     end,
     mk_dataseg (ds_start d) new_brk (ds_limit d) (ds_pagesize d) (ds_convention d))
  else (SBRK_FAILED, d).

(** ** Macro definitions *)

Definition NULL : Z := 0.

Definition TYPE_SIZE : Z := 8.                      (* sizeof(unsigned long) *)

Definition ALLOC : Z := 1.
Definition FREE : Z := 0.
Definition STATUS_MASK : Z := 7.
Definition SIZE_MASK : Z := Z.lxor STATUS_MASK (WORD_MOD - 1).  (* ~STATUS_MASK *)

Definition CHUNKSIZE : Z := 1 * Z.shiftl 1 12.

Definition BS : Z := 32.

Definition MAX (a b : Z) : Z := if a >? b then a else b.

(** C scales pointer arithmetic by the size of the pointee: one byte for
    [void*] (GNU C), [sizeof(TYPE)] bytes for [TYPE*].  The macros below
    are applied to pointers of both types in memmgr.c, so they take the
    static type of their argument. *)
Inductive ptr_type : Type := void_ptr | TYPE_ptr.

Definition stride (t : ptr_type) : Z :=
  match t with
  | void_ptr => 1
  | TYPE_ptr => TYPE_SIZE
  end.

Definition PREV_PTR (t : ptr_type) (p : Z) : Z := wrap (p - stride t * TYPE_SIZE).
Definition NEXT_PTR (t : ptr_type) (p : Z) : Z := wrap (p + stride t * TYPE_SIZE).

Definition PACK (size status : Z) : Z := Z.lor size status.
Definition SIZE (v : Z) : Z := Z.land v SIZE_MASK.
Definition STATUS (v : Z) : Z := Z.land v STATUS_MASK.

Definition GET (m : memory) (p : Z) : Z := load_bytes m p 8.
Definition GET_SIZE (m : memory) (p : Z) : Z := SIZE (GET m p).
Definition GET_STATUS (m : memory) (p : Z) : Z := STATUS (GET m p).

Definition PUT (m : memory) (p val : Z) : memory := store_bytes m p val 8.

Definition HDRP (t : ptr_type) (bp : Z) : Z := PREV_PTR t bp.

Definition FTRP (t : ptr_type) (m : memory) (bp : Z) : Z :=
  PREV_PTR t (wrap (HDRP t bp + stride t * GET_SIZE m (HDRP t bp))).

Definition NEXT_BLKP (t : ptr_type) (m : memory) (p : Z) : Z :=
  wrap (p + stride t * GET_SIZE m (HDRP t p)).

Definition PREV_BLKP (t : ptr_type) (m : memory) (p : Z) : Z :=
  wrap (p - stride t * GET_SIZE m (PREV_PTR t (HDRP t p))).

(** ** Global variables *)

Inductive AllocationPolicy : Type := ap_FirstFit | ap_NextFit | ap_BestFit.

Record mm_state : Type := mk_state {
  ds             : dataseg;                  (* the data segment module *)
  mem            : memory;                   (* the bytes of the address space *)
  ds_heap_start  : Z;                        (* physical start of data segment *)
  ds_heap_brk    : Z;                        (* physical end of data segment *)
  heap_start     : Z;                        (* logical start of heap *)
  heap_end       : Z;                        (* logical end of heap *)
  PAGESIZE       : Z;                        (* memory system page size *)
  get_free_block : option AllocationPolicy;  (* selected policy, None for NULL *)
  mm_initialized : bool;                     (* initialized flag *)
  mm_loglevel    : Z;                        (* log level *)
  nf_ptr         : Z                         (* next-fit: lately searched address *)
}.

(** The state of a process before any call to the memory manager. *)
Definition boot (d : dataseg) (m : memory) : mm_state :=
  mk_state d m NULL NULL NULL NULL 0 None false 0 NULL.

Definition set_mem (st : mm_state) (m : memory) : mm_state :=
  mk_state (ds st) m (ds_heap_start st) (ds_heap_brk st) (heap_start st)
           (heap_end st) (PAGESIZE st) (get_free_block st) (mm_initialized st)
           (mm_loglevel st) (nf_ptr st).

Definition set_nf_ptr (st : mm_state) (p : Z) : mm_state :=
  mk_state (ds st) (mem st) (ds_heap_start st) (ds_heap_brk st) (heap_start st)
           (heap_end st) (PAGESIZE st) (get_free_block st) (mm_initialized st)
           (mm_loglevel st) p.

Definition set_loglevel (st : mm_state) (l : Z) : mm_state :=
  mk_state (ds st) (mem st) (ds_heap_start st) (ds_heap_brk st) (heap_start st)
           (heap_end st) (PAGESIZE st) (get_free_block st) (mm_initialized st)
           l (nf_ptr st).

(** The heap after growth: new provider state, break, logical end, memory. *)
Definition set_grown (st : mm_state) (d : dataseg) (brk he : Z) (m : memory)
  : mm_state :=
  mk_state d m (ds_heap_start st) brk (heap_start st) he (PAGESIZE st)
           (get_free_block st) (mm_initialized st) (mm_loglevel st) (nf_ptr st).

(** HEAP_SIZE: (heap_end - heap_start), converted to a heap word. *)
Definition HEAP_SIZE (st : mm_state) : Z := wrap (heap_end st - heap_start st).

(** ** mm_init *)

Definition mm_init (ap : AllocationPolicy) (st : mm_state) : outcome mm_state :=
  let gfb := Some ap in
  let '(s, b) := ds_heap_stat (ds st) in
  let pg := ds_getpagesize (ds st) in
  if s =? NULL then Panic "mm_init" "Data segment not initialized."
  else if negb (s =? b) then Panic "mm_init" "Heap not clean."
  else if pg =? 0 then Panic "mm_init" "Reported pagesize == 0."
  else
    let '(_, d1) := ds_sbrk (ds st) CHUNKSIZE in
    let '(brk, d2) := ds_sbrk d1 0 in
    if brk =? SBRK_FAILED then Panic "mm_init" "Cannot extend heap"
    else
      let hs := wrap (wrap (s + BS) / BS * BS) in
      let he := wrap (wrap (brk - 1) / BS * BS) in
      let hsz := wrap (he - hs) in
      let m1 := PUT (mem st) (PREV_PTR void_ptr hs) (PACK 0 ALLOC) in
      let m2 := PUT m1 he (PACK 0 ALLOC) in
      let m3 := PUT m2 hs (PACK hsz FREE) in
      let m4 := PUT m3 (PREV_PTR void_ptr he) (PACK hsz FREE) in
      Ret (mk_state d2 m4 s brk hs he pg gfb true (mm_loglevel st) (nf_ptr st)).


(** ** Block allocation policies *)

(** The loop of ff_get_free_block; returns the final [hdrp]. *)
Fixpoint ff_loop (fuel : nat) (m : memory) (he size hdrp : Z) : outcome Z :=
  match fuel with
  | O => OutOfFuel
  | S f =>
      if (hdrp <? he)
         && ((size >? GET_SIZE m hdrp) || (GET_STATUS m hdrp =? ALLOC))
      then ff_loop f m he size (wrap (hdrp + GET_SIZE m hdrp))
      else Ret hdrp
  end.

Definition ff_get_free_block (fuel : nat) (size : Z) (st : mm_state)
  : outcome (Z * mm_state) :=
  if negb (mm_initialized st) then AssertFail else
  hdrp <- ff_loop fuel (mem st) (heap_end st) size (heap_start st) ;;
  if hdrp <? heap_end st then Ret (NEXT_PTR void_ptr hdrp, st)
  else Ret (NULL, st).

(** The loop of nf_get_free_block; the iterated variable is the global
    [nf_ptr] itself. *)
Fixpoint nf_loop (fuel : nat) (size : Z) (st : mm_state) : outcome mm_state :=
  match fuel with
  | O => OutOfFuel
  | S f =>
      if (nf_ptr st <? heap_end st)
         && ((size >? GET_SIZE (mem st) (nf_ptr st))
             || (GET_STATUS (mem st) (nf_ptr st) =? ALLOC))
      then nf_loop f size
             (set_nf_ptr st (wrap (nf_ptr st + GET_SIZE (mem st) (nf_ptr st))))
      else Ret st
  end.

Definition nf_get_free_block (fuel : nat) (size : Z) (st : mm_state)
  : outcome (Z * mm_state) :=
  if negb (mm_initialized st) then AssertFail else
  let st0 := if nf_ptr st =? NULL then set_nf_ptr st (heap_start st) else st in
  st1 <- nf_loop fuel size st0 ;;
  if nf_ptr st1 <? heap_end st1 then Ret (NEXT_PTR void_ptr (nf_ptr st1), st1)
  else Ret (NULL, set_nf_ptr st1 NULL).

(** The loop of bf_get_free_block; returns the final [bf_ptr]. *)
Fixpoint bf_loop (fuel : nat) (m : memory) (he size hdrp minSize bf_ptr : Z)
  : outcome Z :=
  match fuel with
  | O => OutOfFuel
  | S f =>
      if hdrp <? he then
        let '(bf_ptr', minSize') :=
          if (size <=? GET_SIZE m hdrp) && (GET_STATUS m hdrp =? FREE) then
            if GET_SIZE m hdrp <? minSize then (hdrp, GET_SIZE m hdrp)
            else (bf_ptr, minSize)
          else (bf_ptr, minSize) in
        bf_loop f m he size (wrap (hdrp + GET_SIZE m hdrp)) minSize' bf_ptr'
      else Ret bf_ptr
  end.

Definition bf_get_free_block (fuel : nat) (size : Z) (st : mm_state)
  : outcome (Z * mm_state) :=
  if negb (mm_initialized st) then AssertFail else
  bf_ptr <- bf_loop fuel (mem st) (heap_end st) size (heap_start st)
                    (HEAP_SIZE st) NULL ;;
  if negb (bf_ptr =? NULL) then Ret (NEXT_PTR void_ptr bf_ptr, st)
  else Ret (NULL, st).

(** Call through the function pointer [get_free_block]. *)
Definition call_get_free_block (fuel : nat) (size : Z) (st : mm_state)
  : outcome (Z * mm_state) :=
  match get_free_block st with
  | Some ap_FirstFit => ff_get_free_block fuel size st
  | Some ap_NextFit => nf_get_free_block fuel size st
  | Some ap_BestFit => bf_get_free_block fuel size st
  | None => Fault
  end.

(** ** mm_malloc *)

(** Adjusted block size: [((size + 2 * TYPE_SIZE - 1) / BS + 1) * BS]. *)
Definition adjust (size : Z) : Z :=
  wrap ((wrap (wrap (size + 2 * TYPE_SIZE) - 1) / BS + 1) * BS).

(** A fitting free block [bp] was found: split if possible, set the tags. *)
Definition place (m : memory) (bp asize : Z) : memory :=
  if GET_SIZE m (HDRP void_ptr bp) >? asize then
    let m1 := PUT m (wrap (HDRP void_ptr bp + asize))
                  (PACK (wrap (GET_SIZE m (HDRP void_ptr bp) - asize)) FREE) in
    let m2 := PUT m1 (FTRP void_ptr m1 bp)
                  (PACK (wrap (GET_SIZE m1 (HDRP void_ptr bp) - asize)) FREE) in
    let m3 := PUT m2 (HDRP void_ptr bp) (PACK asize ALLOC) in
    PUT m3 (FTRP void_ptr m3 bp) (PACK asize ALLOC)
  else
    let m1 := PUT m (HDRP void_ptr bp) (PACK asize ALLOC) in
    PUT m1 (FTRP void_ptr m1 bp) (PACK asize ALLOC).

(** No fitting free block: get more memory and allocate.  When ds_sbrk
    refuses the request, [bp] is its error value (void* )-1, which is no
    address of the data segment: the store through HDRP(bp), at 2^64 - 9,
    is an invalid access. *)
Definition extend (asize : Z) (st : mm_state) : outcome (Z * mm_state) :=
  let xsize := MAX asize CHUNKSIZE in
  let '(bp, d1) := ds_sbrk (ds st) xsize in
  let '(brk, d2) := ds_sbrk d1 0 in
  if brk =? SBRK_FAILED then Panic "mm_malloc" "Cannot extend heap"
  else
    let he := wrap (wrap (brk - 1) / BS * BS) in
    let m1 := PUT (mem st) he (PACK 0 ALLOC) in
    if bp =? SBRK_FAILED then Fault
    else
      let m2 := PUT m1 (HDRP void_ptr bp) (PACK xsize ALLOC) in
      let m3 := PUT m2 (FTRP void_ptr m2 bp) (PACK xsize ALLOC) in
      Ret (bp, set_grown st d2 brk he m3).

Definition mm_malloc (fuel : nat) (size : Z) (st : mm_state)
  : outcome (Z * mm_state) :=
  if negb (mm_initialized st) then AssertFail else
  if size =? 0 then Ret (NULL, st) else
  let asize := adjust size in
  r <- call_get_free_block fuel asize st ;;
  let '(bp, st1) := r in
  if negb (bp =? NULL) then Ret (bp, set_mem st1 (place (mem st1) bp asize))
  else extend asize st1.

(** ** mm_calloc, mm_realloc *)

Definition mm_calloc (fuel : nat) (nmemb size : Z) (st : mm_state)
  : outcome (Z * mm_state) :=
  if negb (mm_initialized st) then AssertFail else
  r <- mm_malloc fuel (wrap (nmemb * size)) st ;;
  let '(payload, st1) := r in
  if negb (payload =? NULL)
  then m <- memset (mem st1) payload (wrap (nmemb * size)) ;;
       Ret (payload, set_mem st1 m)
  else Ret (payload, st1).

Definition mm_realloc (ptr size : Z) (st : mm_state) : outcome (Z * mm_state) :=
  if negb (mm_initialized st) then AssertFail else Ret (NULL, st).

(** ** mm_free *)

Definition mm_free (ptr : Z) (st : mm_state) : outcome mm_state :=
  if negb (mm_initialized st) then AssertFail else
  let m0 := mem st in
  if GET_STATUS m0 (HDRP void_ptr ptr) =? 0
  then Panic "mm_free" "You're trying to free already free block."
  else
    let size := GET_SIZE m0 (HDRP void_ptr ptr) in
    let m1 := PUT m0 (HDRP void_ptr ptr) (PACK size FREE) in
    let m2 := PUT m1 (FTRP void_ptr m1 ptr) (PACK size FREE) in
    (* prev_bp, next_bp, prev_hdr and next_hdr are declared TYPE* *)
    let prev_bp := PREV_BLKP void_ptr m2 ptr in
    let next_bp := NEXT_BLKP void_ptr m2 ptr in
    let prev_hdr := HDRP TYPE_ptr prev_bp in
    let next_hdr := HDRP TYPE_ptr next_bp in
    let prev_alloc := GET_STATUS m2 prev_hdr in
    let next_alloc := GET_STATUS m2 next_hdr in
    if negb (prev_alloc =? 0) && negb (next_alloc =? 0) then
      Ret (set_mem st m2)
    else if negb (prev_alloc =? 0) && (next_alloc =? 0) then
      let size' := wrap (size + GET_SIZE m2 next_hdr) in
      let m3 := PUT m2 (HDRP void_ptr ptr) (PACK size' FREE) in
      let m4 := PUT m3 (FTRP TYPE_ptr m3 next_bp) (PACK size' FREE) in
      Ret (set_mem st m4)
    else if (prev_alloc =? 0) && negb (next_alloc =? 0) then
      let size' := wrap (size + GET_SIZE m2 prev_hdr) in
      let m3 := PUT m2 prev_hdr (PACK size' FREE) in
      let m4 := PUT m3 (FTRP void_ptr m3 ptr) (PACK size' FREE) in
      Ret (set_mem st m4)
    else
      let size' := wrap (size + wrap (GET_SIZE m2 prev_hdr + GET_SIZE m2 next_hdr)) in
      let m3 := PUT m2 prev_hdr (PACK size' FREE) in
      let m4 := PUT m3 (FTRP TYPE_ptr m3 next_bp) (PACK size' FREE) in
      Ret (set_mem st m4).

(** ** mm_setloglevel, mm_check *)

Definition mm_setloglevel (level : Z) (st : mm_state) : mm_state :=
  set_loglevel st level.

(** What mm_check prints and decides: the (address, size, status) lines of
    the block listing, the error count, the address at which the traversal
    stopped, and whether "Block structure coherent." is printed. *)
Record check_report : Type := mk_report {
  rep_blocks   : list (Z * Z * Z);
  rep_errors   : Z;
  rep_stop     : Z;
  rep_coherent : bool
}.

Fixpoint check_loop (fuel : nat) (m : memory) (he p errors : Z)
                    (printed : list (Z * Z * Z)) : outcome (Z * Z * list (Z * Z * Z)) :=
  match fuel with
  | O => OutOfFuel
  | S f =>
      if p <? he then
        let hdr := GET m p in
        let size := SIZE hdr in
        let status := STATUS hdr in
        let printed' := printed ++ [(p, size, status)] in
        let fp := wrap (wrap (p + size) - TYPE_SIZE) in
        let ftr := GET m fp in
        let fsize := SIZE ftr in
        let fstatus := STATUS ftr in
        let errors' :=
          if negb (size =? fsize) || negb (status =? fstatus)
          then errors + 1 else errors in
        let p' := wrap (p + size) in
        if size =? 0 then Ret (p', errors', printed')
        else check_loop f m he p' errors' printed'
      else Ret (p, errors, printed)
  end.

Definition mm_check (fuel : nat) (st : mm_state) : outcome check_report :=
  if negb (mm_initialized st) then AssertFail else
  r <- check_loop fuel (mem st) (heap_end st) (heap_start st) 0 [] ;;
  let '(p, errors, printed) := r in
  Ret (mk_report printed errors p ((p =? heap_end st) && (errors =? 0))).

(** ** Driver scenarios

    A data segment of 64 MiB at address 0x1000 with 4 KiB pages, on fresh
    (zero-filled) memory, and the states a driver reaches on it. *)

Definition region (c : sbrk_result) : dataseg :=
  mk_dataseg 4096 4096 (4096 + 67108864) 4096 c.

Definition state_of (o : outcome mm_state) : mm_state :=
  match o with
  | Ret st => st
  | _ => boot (region OldBreak) zero_memory
  end.

Definition returned {A : Type} (o : outcome A) : bool :=
  match o with
  | Ret _ => true
  | _ => false
  end.

Definition ptr_of (o : outcome (Z * mm_state)) : option Z :=
  match o with
  | Ret (p, _) => Some p
  | _ => None
  end.

Definition after_malloc (size : Z) (st : mm_state) : mm_state :=
  state_of (r <- mm_malloc 100 size st ;; Ret (snd r)).

Definition after_free (ptr : Z) (st : mm_state) : mm_state :=
  state_of (mm_free ptr st).

(** mm_init under each policy. *)
Definition fresh (ap : AllocationPolicy) (c : sbrk_result) : mm_state :=
  state_of (mm_init ap (boot (region c) zero_memory)).

(** A request larger than the free space, right after mm_init. *)
Definition grown (ap : AllocationPolicy) (c : sbrk_result) : mm_state :=
  after_malloc 5000 (fresh ap c).

(** Three 64-byte blocks, the third one released. *)
Definition three (ap : AllocationPolicy) : mm_state :=
  after_malloc 40 (after_malloc 40 (after_malloc 40 (fresh ap OldBreak))).

Definition three_freed : mm_state := after_free 4264 (three ap_FirstFit).

(** A successive release of several pointers. *)
Fixpoint free_all (ptrs : list Z) (st : mm_state) : outcome mm_state :=
  match ptrs with
  | [] => Ret st
  | p :: rest => st' <- mm_free p st ;; free_all rest st'
  end.

(** First fit, the whole initial free block handed out. *)
Definition full : mm_state := after_malloc 4000 (fresh ap_FirstFit OldBreak).

(** A usable data segment: 64-bit addresses, start <= end <= limit, and the
    limit below the error value. *)
Definition ds_ok (d : dataseg) : Prop :=
  0 <= ds_start d /\ ds_start d <= ds_break d /\ ds_break d <= ds_limit d
  /\ ds_limit d < SBRK_FAILED.

(** ** The block sequence seen by a forward scan

    [walk m p bs e]: starting at address [p], the headers found by
    stepping from block to block by the encoded size are exactly the
    (size, status) pairs [bs], each header lying below [e], and the step
    after the last one does not lie below [e]. *)
Fixpoint walk (m : memory) (p : Z) (bs : list (Z * Z)) (e : Z) : Prop :=
  match bs with
  | [] => e <= p
  | (sz, stt) :: rest =>
      p < e /\ GET_SIZE m p = sz /\ GET_STATUS m p = stt
      /\ walk m (wrap (p + sz)) rest e
  end.

(** Whether a block with this tag satisfies a request, as the first-fit and
    next-fit loops test it. *)
Definition fits (size : Z) (b : Z * Z) : bool :=
  negb ((size >? fst b) || (snd b =? ALLOC)).

(** Address of the first fitting block of [bs], laid out from [p]. *)
Fixpoint first_fit (size p : Z) (bs : list (Z * Z)) : option Z :=
  match bs with
  | [] => None
  | b :: rest =>
      if fits size b then Some p else first_fit size (wrap (p + fst b)) rest
  end.

(** Two consecutive lines of a block listing with status FREE. *)
Fixpoint adjacent_free (blocks : list (Z * Z * Z)) : bool :=
  match blocks with
  | (_, _, s1) :: (((_, _, s2) :: _) as rest) =>
      ((s1 =? FREE) && (s2 =? FREE)) || adjacent_free rest
  | _ => false
  end.

(** First fit: blocks of 64, 64, 96, 64, 64, 64 bytes, the 96-byte block
    and the second 64-byte block after it released. *)
Definition two_holes : mm_state :=
  after_free 4424
    (after_free 4264
       (after_malloc 40 (after_malloc 40 (after_malloc 40 (after_malloc 80
          (after_malloc 40 (after_malloc 40 (fresh ap_FirstFit OldBreak)))))))).

(** Address at which the first-fit / next-fit loop leaves its pointer. *)
Fixpoint scan_stop (size p : Z) (bs : list (Z * Z)) : Z :=
  match bs with
  | [] => p
  | b :: rest =>
      if fits size b then p else scan_stop size (wrap (p + fst b)) rest
  end.

(** The blocks of a scan with their header addresses. *)
Fixpoint layout (p : Z) (bs : list (Z * Z)) : list (Z * (Z * Z)) :=
  match bs with
  | [] => []
  | b :: rest => (p, b) :: layout (wrap (p + fst b)) rest
  end.

(** Whether best fit records a block, given the smallest size so far. *)
Definition candidate (size minSize : Z) (b : Z * Z) : bool :=
  (size <=? fst b) && (snd b =? FREE) && (fst b <? minSize).

(** The pointer the best-fit loop ends with on the blocks [bs]. *)
Fixpoint bf_pick (size p : Z) (bs : list (Z * Z)) (minSize bf_ptr : Z) : Z :=
  match bs with
  | [] => bf_ptr
  | b :: rest =>
      if candidate size minSize b
      then bf_pick size (wrap (p + fst b)) rest (fst b) p
      else bf_pick size (wrap (p + fst b)) rest minSize bf_ptr
  end.

(** The region starts eight bytes past a 32-byte boundary. *)
Definition region8 : dataseg :=
  mk_dataseg 4104 4104 (4104 + 67108864) 4096 OldBreak.

Definition grown8 : mm_state :=
  after_malloc 5000 (state_of (mm_init ap_FirstFit (boot region8 zero_memory))).

(** Next fit: four blocks fill the heap, the cursor rests on the last one,
    and the third one is released. *)
Definition nf_behind : mm_state :=
  after_free 4264 (after_malloc 3824 (three ap_NextFit)).

(** ** Block sequences with their footers

    [tiled m p bs e]: the blocks [bs] lie back to back from [p] and end
    exactly at [e]; every block has a positive size, and its header and
    its footer (the last word of the block) both carry its size and
    status. *)
Fixpoint tiled (m : memory) (p : Z) (bs : list (Z * Z)) (e : Z) : Prop :=
  match bs with
  | [] => p = e
  | (sz, stt) :: rest =>
      0 < sz /\ p + sz <= e
      /\ GET_SIZE m p = sz /\ GET_STATUS m p = stt
      /\ GET_SIZE m (p + sz - TYPE_SIZE) = sz
      /\ GET_STATUS m (p + sz - TYPE_SIZE) = stt
      /\ tiled m (p + sz) rest e
  end.

(** [reaches m p bs q e]: a forward scan from [p] passes the headers [bs],
    all below [e], and arrives at [q]. *)
Fixpoint reaches (m : memory) (p : Z) (bs : list (Z * Z)) (q e : Z) : Prop :=
  match bs with
  | [] => p = q
  | (sz, stt) :: rest =>
      p < e /\ GET_SIZE m p = sz /\ GET_STATUS m p = stt
      /\ reaches m (wrap (p + sz)) rest q e
  end.

(** Address behind the blocks [bs] laid out from [p]. *)
Fixpoint walk_end (p : Z) (bs : list (Z * Z)) : Z :=
  match bs with
  | [] => p
  | b :: rest => walk_end (wrap (p + fst b)) rest
  end.

(** The lines mm_check prints for the blocks [bs] laid out from [p]. *)
Fixpoint listing (p : Z) (bs : list (Z * Z)) : list (Z * Z * Z) :=
  match bs with
  | [] => []
  | (sz, stt) :: rest => (p, sz, stt) :: listing (wrap (p + sz)) rest
  end.

(** The test of mm_check on one block: the word at the footer position
    differs from the header in size or status. *)
Definition footer_differs (m : memory) (p sz stt : Z) : bool :=
  negb (sz =? GET_SIZE m (wrap (wrap (p + sz) - TYPE_SIZE)))
  || negb (stt =? GET_STATUS m (wrap (wrap (p + sz) - TYPE_SIZE))).

Fixpoint count_errors (m : memory) (p : Z) (bs : list (Z * Z)) : Z :=
  match bs with
  | [] => 0
  | (sz, stt) :: rest =>
      (if footer_differs m p sz stt then 1 else 0)
      + count_errors m (wrap (p + sz)) rest
  end.

(** The block sequence laid out from [p] after the block at address [h]
    has been handed out for [asize] bytes: the block is split when it is
    larger than [asize]. *)
Fixpoint split_at (h asize p : Z) (bs : list (Z * Z)) : list (Z * Z) :=
  match bs with
  | [] => []
  | b :: rest =>
      if p =? h then
        if fst b >? asize
        then (asize, ALLOC) :: (fst b - asize, FREE) :: rest
        else (asize, ALLOC) :: rest
      else b :: split_at h asize (wrap (p + fst b)) rest
  end.

(** What no operation after mm_init changes. *)
Definition same_configuration (st st' : mm_state) : Prop :=
  heap_start st' = heap_start st
  /\ get_free_block st' = get_free_block st
  /\ mm_initialized st' = mm_initialized st
  /\ ds_heap_start st' = ds_heap_start st
  /\ PAGESIZE st' = PAGESIZE st
  /\ mm_loglevel st' = mm_loglevel st.


(** A fresh data segment with room for the first chunk and no more, and
    the manager initialized on it. *)
Definition region_one_chunk : dataseg :=
  mk_dataseg 4096 4096 (4096 + 4096) 4096 OldBreak.

Definition confined : mm_state :=
  state_of (mm_init ap_FirstFit (boot region_one_chunk zero_memory)).


(** A store of the driver into a word of one of its payloads:
    [*(TYPE* )a = v]. *)
Definition user_store (a v : Z) (st : mm_state) : mm_state :=
  set_mem st (PUT (mem st) a v).

(** First fit: five blocks A, B, C, D, E of 64, 64, 64, 96 and 64 bytes,
    with payloads at 4136, 4200, 4264, 4328 and 4424. *)
Definition five : mm_state :=
  after_malloc 40 (after_malloc 80 (after_malloc 40 (after_malloc 40
    (after_malloc 40 (fresh ap_FirstFit OldBreak))))).

(** The driver has stored one word of data at the start of A, C, D and E:
    1, -56, 96 and 1. *)
Definition five_in_use : mm_state :=
  user_store 4424 1 (user_store 4328 96 (user_store 4264 (WORD_MOD - 56)
    (user_store 4136 1 five))).
(** * Properties *)

(** ** Words and tags *)

Lemma WORD_MOD_eq : WORD_MOD = 18446744073709551616.
Proof. reflexivity. Qed.

Lemma wrap_range x : 0 <= wrap x < WORD_MOD.
Proof. unfold wrap. apply Z.mod_pos_bound. reflexivity. Qed.

Lemma wrap_small x : 0 <= x < WORD_MOD -> wrap x = x.
Proof. intros H. unfold wrap. apply Z.mod_small. exact H. Qed.

Lemma mod8_add_mul a k : (a + 8 * k) mod 8 = a mod 8.
Proof. rewrite (Z.mul_comm 8 k). apply Z.mod_add. lia. Qed.

Lemma wrap_mod8 x : wrap x mod 8 = x mod 8.
Proof.
  unfold wrap. rewrite WORD_MOD_eq.
  change 18446744073709551616 with (8 * 2305843009213693952).
  rewrite Z.rem_mul_r by lia.
  rewrite mod8_add_mul. apply Z.mod_mod. lia.
Qed.

Lemma STATUS_mod v : STATUS v = v mod 8.
Proof.
  unfold STATUS, STATUS_MASK. change 7 with (Z.ones 3).
  rewrite Z.land_ones by lia. reflexivity.
Qed.

Lemma SIZE_div v : 0 <= v < WORD_MOD -> SIZE v = 8 * (v / 8).
Proof.
  intros Hv. unfold SIZE.
  replace SIZE_MASK with (Z.land (Z.ones 64) (Z.lnot (Z.ones 3))) by reflexivity.
  rewrite Z.land_assoc, Z.land_ones by lia.
  change (2 ^ 64) with WORD_MOD. rewrite Z.mod_small by exact Hv.
  rewrite <- Z.ldiff_land, Z.ldiff_ones_r by lia.
  rewrite Z.shiftr_div_pow2, Z.shiftl_mul_pow2 by lia.
  change (2 ^ 3) with 8. lia.
Qed.

Lemma SIZE_mod8 v : 0 <= v < WORD_MOD -> SIZE v mod 8 = 0.
Proof.
  intros Hv. rewrite SIZE_div by exact Hv.
  rewrite Z.mul_comm. apply Z.mod_mul. lia.
Qed.

Lemma SIZE_range v : 0 <= v < WORD_MOD -> 0 <= SIZE v < WORD_MOD.
Proof.
  intros Hv. rewrite SIZE_div by exact Hv.
  rewrite WORD_MOD_eq in *. pose proof (Z.mul_div_le v 8). 
  assert (0 <= v / 8) by (apply Z.div_pos; lia). lia.
Qed.

Lemma PACK_add s t : s mod 8 = 0 -> 0 <= t < 8 -> PACK s t = s + t.
Proof.
  intros Hs Ht. unfold PACK.
  assert (Hl : Z.land s t = 0).
  { rewrite <- (Z.mod_small t 8) by exact Ht.
    change 8 with (2 ^ 3). rewrite <- Z.land_ones by lia.
    rewrite (Z.land_comm t), Z.land_assoc, Z.land_ones by lia.
    change (2 ^ 3) with 8. rewrite Hs. apply Z.land_0_l. }
  pose proof (Z.add_lor_land s t) as H. rewrite Hl in H. lia.
Qed.

Lemma PACK_FREE s : PACK s FREE = s.
Proof. unfold PACK, FREE. apply Z.lor_0_r. Qed.

(** ** Memory *)

Lemma load_bytes_range m n : forall p, 0 <= load_bytes m p n < 256 ^ Z.of_nat n.
Proof.
  induction n as [|n IH]; intros p.
  - simpl. lia.
  - rewrite Nat2Z.inj_succ, Z.pow_succ_r by lia.
    cbn [load_bytes]. specialize (IH (p + 1)).
    pose proof (Z.mod_pos_bound (m p) 256 ltac:(lia)). nia.
Qed.

Lemma GET_range m p : 0 <= GET m p < WORD_MOD.
Proof. unfold GET. apply (load_bytes_range m 8 p). Qed.

Lemma load_bytes_ext m m' n :
  forall p, (forall a, p <= a < p + Z.of_nat n -> m a = m' a) ->
            load_bytes m p n = load_bytes m' p n.
Proof.
  induction n as [|n IH]; intros p H.
  - reflexivity.
  - cbn [load_bytes]. rewrite Nat2Z.inj_succ in H.
    rewrite (H p) by lia. rewrite (IH (p + 1)).
    + reflexivity.
    + intros a Ha. apply H. lia.
Qed.

Lemma load_bytes_digits n :
  forall m p v, (forall i, 0 <= i < Z.of_nat n -> m (p + i) = byte_of v i) ->
                load_bytes m p n = v mod 256 ^ Z.of_nat n.
Proof.
  induction n as [|n IH]; intros m p v H.
  - simpl. symmetry. apply Z.mod_1_r.
  - rewrite Nat2Z.inj_succ, Z.pow_succ_r by lia. rewrite Nat2Z.inj_succ in H.
    cbn [load_bytes].
    rewrite (IH m (p + 1) (v / 256)).
    + pose proof (H 0 ltac:(lia)) as H0. rewrite Z.add_0_r in H0.
      rewrite H0. unfold byte_of. simpl (2 ^ (8 * 0)). rewrite Z.div_1_r.
      rewrite Z.mod_mod by lia.
      rewrite Z.rem_mul_r; [reflexivity | lia | apply Z.pow_pos_nonneg; lia].
    + intros i Hi. replace (p + 1 + i) with (p + (i + 1)) by lia.
      rewrite H by lia. unfold byte_of.
      replace (8 * (i + 1)) with (8 + 8 * i) by lia.
      rewrite Z.pow_add_r by lia. change (2 ^ 8) with 256.
      rewrite Z.div_div; [reflexivity | lia | apply Z.pow_pos_nonneg; lia].
Qed.

Lemma GET_PUT_same m p v : GET (PUT m p v) p = wrap v.
Proof.
  unfold GET, PUT, wrap. rewrite (load_bytes_digits 8 _ p v).
  - reflexivity.
  - intros i Hi. unfold store_bytes.
    replace ((p <=? p + i) && (p + i <? p + 8)) with true.
    + f_equal. lia.
    + symmetry. apply andb_true_intro. split; [apply Z.leb_le | apply Z.ltb_lt]; lia.
Qed.

Lemma GET_PUT_apart m p v q :
  q + 8 <= p \/ p + 8 <= q -> GET (PUT m p v) q = GET m q.
Proof.
  intros H. unfold GET, PUT. apply load_bytes_ext.
  intros a Ha. unfold store_bytes.
  replace ((p <=? a) && (a <? p + 8)) with false; [reflexivity|].
  symmetry. apply andb_false_iff.
  destruct H; [left; apply Z.leb_gt | right; apply Z.ltb_ge]; lia.
Qed.

(** Two word addresses that agree modulo 8 are equal or do not overlap. *)
Lemma GET_PUT_other m p v q :
  p mod 8 = q mod 8 -> p <> q -> GET (PUT m p v) q = GET m q.
Proof.
  intros H Hne. apply GET_PUT_apart.
  pose proof (Z.div_mod p 8 ltac:(lia)). pose proof (Z.div_mod q 8 ltac:(lia)).
  lia.
Qed.

Lemma GET_STATUS_byte m p : GET_STATUS m p = m p mod 8.
Proof.
  unfold GET_STATUS, GET. rewrite STATUS_mod.
  change (load_bytes m p 8) with (m p mod 256 + 256 * load_bytes m (p + 1) 7).
  set (r := load_bytes m (p + 1) 7).
  replace (m p mod 256 + 256 * r) with (m p mod 256 + 8 * (32 * r)) by lia.
  rewrite mod8_add_mul.
  change 256 with (8 * 32). rewrite Z.rem_mul_r by lia.
  rewrite mod8_add_mul. apply Z.mod_mod. lia.
Qed.

Lemma GET_SIZE_mod8 m p : GET_SIZE m p mod 8 = 0.
Proof. apply SIZE_mod8, GET_range. Qed.

Lemma GET_SIZE_range m p : 0 <= GET_SIZE m p < WORD_MOD.
Proof. apply SIZE_range, GET_range. Qed.

Lemma GET_SIZE_PUT m p s t :
  0 <= s < WORD_MOD -> s mod 8 = 0 -> 0 <= t < 8 ->
  GET_SIZE (PUT m p (PACK s t)) p = s.
Proof.
  intros Hs H8 Ht. unfold GET_SIZE. rewrite GET_PUT_same, PACK_add by assumption.
  assert (Hr : 0 <= s + t < WORD_MOD).
  { rewrite WORD_MOD_eq in *. pose proof (Z.div_mod s 8 ltac:(lia)). lia. }
  rewrite wrap_small by exact Hr. rewrite SIZE_div by exact Hr.
  pose proof (Z.div_mod s 8 ltac:(lia)) as Hd. rewrite H8 in Hd.
  replace (s + t) with (t + (s / 8) * 8) by lia.
  rewrite Z.div_add by lia. rewrite Z.div_small by exact Ht. lia.
Qed.

Lemma GET_STATUS_PUT m p s t :
  s mod 8 = 0 -> 0 <= t < 8 -> GET_STATUS (PUT m p (PACK s t)) p = t.
Proof.
  intros H8 Ht. unfold GET_STATUS. rewrite GET_PUT_same, STATUS_mod, wrap_mod8.
  rewrite PACK_add by assumption.
  pose proof (Z.div_mod s 8 ltac:(lia)) as Hd. rewrite H8 in Hd.
  replace (s + t) with (t + 8 * (s / 8)) by lia.
  rewrite mod8_add_mul. apply Z.mod_small. exact Ht.
Qed.

(** ** Outcomes of the driver scenarios *)

Lemma returned_state (o : outcome mm_state) :
  returned o = true -> o = Ret (state_of o).
Proof. destruct o; intros H; try discriminate H. reflexivity. Qed.

Lemma returned_malloc (size : Z) (st : mm_state) (p : Z) :
  ptr_of (mm_malloc 100 size st) = Some p ->
  mm_malloc 100 size st = Ret (p, after_malloc size st).
Proof.
  unfold after_malloc. destruct (mm_malloc 100 size st) as [[q s]| | | |];
    intros H; try discriminate H.
  injection H as ->. reflexivity.
Qed.

Lemma returned_free (ptr : Z) (st : mm_state) :
  returned (mm_free ptr st) = true -> mm_free ptr st = Ret (after_free ptr st).
Proof. apply returned_state. Qed.

Lemma returned_init (ap : AllocationPolicy) (c : sbrk_result) :
  returned (mm_init ap (boot (region c) zero_memory)) = true ->
  mm_init ap (boot (region c) zero_memory) = Ret (fresh ap c).
Proof. apply returned_state. Qed.

(** ** Requests of zero bytes *)

Lemma mm_malloc_0 (fuel : nat) (st : mm_state) :
  mm_initialized st = true -> mm_malloc fuel 0 st = Ret (NULL, st).
Proof.
  intros Hi. unfold mm_malloc. rewrite Hi. reflexivity.
Qed.

(** C7. [mm_malloc(0)] returns NULL by a normal return (neither PANIC nor a
    failed assertion) and leaves the whole state as it was: memory and
    tags, heap bounds, data segment and next-fit cursor. *)
Theorem malloc_zero_no_effect (fuel : nat) (st : mm_state) :
  mm_initialized st = true ->
  mm_malloc fuel 0 st = Ret (NULL, st) /\
  forall st', mm_malloc fuel 0 st = Ret (NULL, st') ->
    mem st' = mem st /\ heap_start st' = heap_start st /\
    heap_end st' = heap_end st /\ nf_ptr st' = nf_ptr st /\ ds st' = ds st.
Proof.
  intros Hi. split.
  - apply mm_malloc_0. exact Hi.
  - intros st' H. rewrite (mm_malloc_0 fuel st Hi) in H.
    injection H as <-. repeat split.
Qed.

Lemma malloc_zero_no_effect_witness :
  mm_malloc 0 0 (fresh ap_NextFit OldBreak) = Ret (NULL, fresh ap_NextFit OldBreak).
Proof.
  apply (proj1 (malloc_zero_no_effect 0 (fresh ap_NextFit OldBreak) eq_refl)).
Defined.

(** ** Heap bounds set by mm_init *)

Lemma round_below x :
  0 <= x < WORD_MOD ->
  wrap (x / BS * BS) = BS * (x / BS) /\ x - BS < BS * (x / BS) <= x.
Proof.
  intros Hx. unfold BS. rewrite WORD_MOD_eq in Hx.
  pose proof (Z.div_mod x 32 ltac:(lia)) as Hd.
  pose proof (Z.mod_pos_bound x 32 ltac:(lia)) as Hm.
  split; [|lia]. rewrite (Z.mul_comm (x / 32) 32).
  apply wrap_small. rewrite WORD_MOD_eq. lia.
Qed.

(** C9, as the code has it.  On a clean data segment that can take the
    first chunk, mm_init returns, and heap_start is the least multiple of
    32 strictly above the start of the region (the start rounded up when
    it is not aligned, the start plus 32 when it is), heap_end the greatest
    multiple of 32 strictly below the end of the region (the end rounded
    down when it is not aligned, the end minus 32 when it is). *)
Theorem init_heap_bounds (ap : AllocationPolicy) (st : mm_state) :
  ds_ok (ds st) ->
  ds_start (ds st) <> NULL ->
  ds_break (ds st) = ds_start (ds st) ->
  ds_pagesize (ds st) <> 0 ->
  ds_start (ds st) + CHUNKSIZE <= ds_limit (ds st) ->
  exists st',
    mm_init ap st = Ret st' /\
    ds_heap_start st' = ds_start (ds st) /\
    ds_heap_brk st' = ds_start (ds st) + CHUNKSIZE /\
    heap_start st' = BS * (ds_heap_start st' / BS + 1) /\
    heap_end st' = BS * ((ds_heap_brk st' - 1) / BS) /\
    heap_start st' mod BS = 0 /\
    ds_heap_start st' < heap_start st' <= ds_heap_start st' + BS /\
    heap_end st' mod BS = 0 /\
    ds_heap_brk st' - BS <= heap_end st' < ds_heap_brk st'.
Proof.
  intros (H0 & H1 & H2 & H3) Hs Hb Hp Hl.
  unfold NULL in Hs. unfold SBRK_FAILED in H3.
  assert (Hc : CHUNKSIZE = 4096) by reflexivity.
  assert (Hbrk : (let '(_, d1) := ds_sbrk (ds st) CHUNKSIZE in fst (ds_sbrk d1 0))
                 = ds_start (ds st) + CHUNKSIZE).
  { unfold ds_sbrk. rewrite Hb.
    replace (ds_start (ds st) + CHUNKSIZE <=? ds_limit (ds st)) with true
      by (symmetry; apply Z.leb_le; lia).
    cbn [ds_break ds_limit ds_convention fst].
    replace (ds_start (ds st) + CHUNKSIZE + 0 <=? ds_limit (ds st)) with true
      by (symmetry; apply Z.leb_le; lia).
    destruct (ds_convention (ds st)); cbn [fst]; lia. }
  unfold mm_init, ds_heap_stat, ds_getpagesize.
  rewrite Hb, Z.eqb_refl. cbn [negb].
  destruct (ds_start (ds st) =? NULL) eqn:E1; [apply Z.eqb_eq in E1; contradiction|].
  destruct (ds_pagesize (ds st) =? 0) eqn:E2; [apply Z.eqb_eq in E2; contradiction|].
  destruct (ds_sbrk (ds st) CHUNKSIZE) as [r1 d1].
  destruct (ds_sbrk d1 0) as [brk d2]. cbn [fst] in Hbrk. subst brk.
  set (s := ds_start (ds st)) in *.
  destruct (s + CHUNKSIZE =? SBRK_FAILED) eqn:E3;
    [apply Z.eqb_eq in E3; unfold SBRK_FAILED in E3; lia|].
  eexists. split; [reflexivity|]. cbn [ds_heap_start ds_heap_brk heap_start heap_end].
  assert (Hr1 : 0 <= s + BS < WORD_MOD) by (unfold BS; rewrite WORD_MOD_eq in *; lia).
  assert (Hr2 : 0 <= s + CHUNKSIZE - 1 < WORD_MOD) by (rewrite WORD_MOD_eq in *; lia).
  rewrite (wrap_small (s + BS)) by exact Hr1.
  rewrite (wrap_small (s + CHUNKSIZE - 1)) by exact Hr2.
  destruct (round_below _ Hr1) as [Ea Ba]. destruct (round_below _ Hr2) as [Eb Bb].
  rewrite Ea, Eb. unfold BS in *.
  replace ((s + 32) / 32) with (s / 32 + 1)
    in * by (replace (s + 32) with (s + 1 * 32) by lia; rewrite Z.div_add by lia; reflexivity).
  repeat split; try reflexivity; try lia.
  - rewrite Z.mul_comm. apply Z.mod_mul. lia.
  - rewrite Z.mul_comm. apply Z.mod_mul. lia.
Qed.

Lemma init_heap_bounds_witness :
  exists st',
    mm_init ap_BestFit (boot (region OldBreak) zero_memory) = Ret st' /\
    ds_heap_start st' = 4096 /\
    ds_heap_brk st' = 4096 + CHUNKSIZE /\
    heap_start st' = BS * (ds_heap_start st' / BS + 1) /\
    heap_end st' = BS * ((ds_heap_brk st' - 1) / BS) /\
    heap_start st' mod BS = 0 /\
    ds_heap_start st' < heap_start st' <= ds_heap_start st' + BS /\
    heap_end st' mod BS = 0 /\
    ds_heap_brk st' - BS <= heap_end st' < ds_heap_brk st'.
Proof.
  apply (init_heap_bounds ap_BestFit (boot (region OldBreak) zero_memory)).
  - repeat split; vm_compute; congruence.
  - vm_compute; congruence.
  - reflexivity.
  - vm_compute; congruence.
  - vm_compute; congruence.
Defined.

(** C9, counterexample to the claim as stated: the region starts at the
    32-byte aligned address 4096 and ends, after the first chunk, at the
    aligned address 8192, yet heap_start is 4128 and heap_end is 8160. *)
Lemma init_aligned_start_moves :
  ds_start (region OldBreak) mod BS = 0 /\
  mm_init ap_FirstFit (boot (region OldBreak) zero_memory)
    = Ret (fresh ap_FirstFit OldBreak) /\
  heap_start (fresh ap_FirstFit OldBreak) = 4128 /\
  heap_start (fresh ap_FirstFit OldBreak) <> ds_start (region OldBreak) /\
  ds_heap_brk (fresh ap_FirstFit OldBreak) = 8192 /\
  heap_end (fresh ap_FirstFit OldBreak) = 8160 /\
  heap_end (fresh ap_FirstFit OldBreak)
    <> ds_heap_brk (fresh ap_FirstFit OldBreak) / BS * BS.
Proof.
  split; [reflexivity|].
  split; [apply returned_init; vm_compute; reflexivity|].
  repeat split; try (vm_compute; reflexivity); vm_compute; discriminate.
Qed.

(** ** Size of an allocated block *)

Lemma mod32_mod8 x : x mod 32 = 0 -> x mod 8 = 0.
Proof.
  intros H. pose proof (Z.div_mod x 32 ltac:(lia)) as Hd. rewrite H in Hd.
  replace x with (0 + 8 * (4 * (x / 32))) by lia. apply mod8_add_mul.
Qed.

Lemma adjust_exact n :
  0 < n <= WORD_MOD - 48 ->
  adjust n = (n + 2 * TYPE_SIZE + (BS - 1)) / BS * BS
  /\ adjust n mod BS = 0
  /\ n + 2 * TYPE_SIZE <= adjust n < n + 2 * TYPE_SIZE + BS
  /\ adjust n < WORD_MOD.
Proof.
  intros Hn. unfold adjust, TYPE_SIZE, BS. rewrite WORD_MOD_eq in Hn.
  rewrite (wrap_small (n + 2 * 8)) by (rewrite WORD_MOD_eq; lia).
  rewrite (wrap_small (n + 2 * 8 - 1)) by (rewrite WORD_MOD_eq; lia).
  replace (n + 2 * 8 + (32 - 1)) with ((n + 2 * 8 - 1) + 1 * 32) by lia.
  rewrite Z.div_add by lia.
  set (q := (n + 2 * 8 - 1) / 32).
  pose proof (Z.div_mod (n + 2 * 8 - 1) 32 ltac:(lia)) as Hd.
  pose proof (Z.mod_pos_bound (n + 2 * 8 - 1) 32 ltac:(lia)) as Hm.
  fold q in Hd.
  rewrite wrap_small by (rewrite WORD_MOD_eq; lia).
  repeat split; try lia.
  - apply Z.mod_mul. lia.
  - rewrite WORD_MOD_eq. lia.
Qed.

(** The two last writes of every allocation path: header, then footer at
    the place the fresh header designates. *)
Lemma alloc_tags m bp s :
  0 <= s < WORD_MOD -> s mod 8 = 0 -> s <> 8 ->
  let m1 := PUT m (HDRP void_ptr bp) (PACK s ALLOC) in
  let m2 := PUT m1 (FTRP void_ptr m1 bp) (PACK s ALLOC) in
  GET_SIZE m2 (HDRP void_ptr bp) = s /\ GET_STATUS m2 (HDRP void_ptr bp) = ALLOC.
Proof.
  intros Hs H8 Hne m1 m2.
  assert (Ha : 0 <= ALLOC < 8) by (unfold ALLOC; lia).
  assert (E1 : GET_SIZE m1 (HDRP void_ptr bp) = s)
    by (apply GET_SIZE_PUT; assumption).
  assert (E2 : GET_STATUS m1 (HDRP void_ptr bp) = ALLOC)
    by (apply GET_STATUS_PUT; assumption).
  set (h := HDRP void_ptr bp) in *.
  assert (Hh : 0 <= h < WORD_MOD) by apply wrap_range.
  assert (Ef : FTRP void_ptr m1 bp = wrap (wrap (h + s) - 8)).
  { unfold FTRP, PREV_PTR. fold (PREV_PTR void_ptr bp). fold (HDRP void_ptr bp).
    fold h. rewrite E1. unfold stride, TYPE_SIZE.
    rewrite !Z.mul_1_l. reflexivity. }
  assert (Hc : FTRP void_ptr m1 bp mod 8 = h mod 8).
  { rewrite Ef, wrap_mod8.
    replace (wrap (h + s) - 8) with (wrap (h + s) + 8 * (-1)) by lia.
    rewrite mod8_add_mul, wrap_mod8.
    pose proof (Z.div_mod s 8 ltac:(lia)) as Hd. rewrite H8 in Hd.
    replace (h + s) with (h + 8 * (s / 8)) by lia. apply mod8_add_mul. }
  assert (Hd : FTRP void_ptr m1 bp <> h).
  { rewrite Ef. unfold wrap. rewrite WORD_MOD_eq in *.
    intros Heq.
    pose proof (Z.div_mod (h + s) 18446744073709551616 ltac:(lia)) as D1.
    pose proof (Z.mod_pos_bound (h + s) 18446744073709551616 ltac:(lia)) as B1.
    set (r := (h + s) mod 18446744073709551616) in *.
    pose proof (Z.div_mod (r - 8) 18446744073709551616 ltac:(lia)) as D2.
    rewrite Heq in D2. lia. }
  unfold GET_SIZE, GET_STATUS in *. subst m2.
  rewrite (GET_PUT_other m1 _ _ h Hc Hd). split; assumption.
Qed.

Lemma place_tags m bp s :
  0 <= s < WORD_MOD -> s mod 8 = 0 -> s <> 8 ->
  GET_SIZE (place m bp s) (HDRP void_ptr bp) = s
  /\ GET_STATUS (place m bp s) (HDRP void_ptr bp) = ALLOC.
Proof.
  intros Hs H8 Hne. unfold place.
  destruct (GET_SIZE m (HDRP void_ptr bp) >? s); apply alloc_tags; assumption.
Qed.

(** The footer macro looks at memory only through the size in the header. *)
Lemma FTRP_same_header t m m' bp :
  GET_SIZE m (HDRP t bp) = GET_SIZE m' (HDRP t bp) -> FTRP t m bp = FTRP t m' bp.
Proof. intros H. unfold FTRP. rewrite H. reflexivity. Qed.

(** After the two writes the footer, found from the header as FTRP does,
    carries the same tag as the header. *)
Lemma alloc_footer m bp s :
  0 <= s < WORD_MOD -> s mod 8 = 0 -> s <> 8 ->
  let m1 := PUT m (HDRP void_ptr bp) (PACK s ALLOC) in
  let m2 := PUT m1 (FTRP void_ptr m1 bp) (PACK s ALLOC) in
  GET_SIZE m2 (FTRP void_ptr m2 bp) = s
  /\ GET_STATUS m2 (FTRP void_ptr m2 bp) = ALLOC.
Proof.
  intros Hs H8 Hne m1 m2.
  assert (Ha : 0 <= ALLOC < 8) by (unfold ALLOC; lia).
  destruct (alloc_tags m bp s Hs H8 Hne) as [E2 _]. fold m1 m2 in E2.
  assert (E1 : GET_SIZE m1 (HDRP void_ptr bp) = s)
    by (apply GET_SIZE_PUT; assumption).
  rewrite (FTRP_same_header void_ptr m2 m1 bp) by (rewrite E1; exact E2).
  subst m2. split; [apply GET_SIZE_PUT | apply GET_STATUS_PUT]; assumption.
Qed.

Lemma place_footer m bp s :
  0 <= s < WORD_MOD -> s mod 8 = 0 -> s <> 8 ->
  GET_SIZE (place m bp s) (FTRP void_ptr (place m bp s) bp) = s
  /\ GET_STATUS (place m bp s) (FTRP void_ptr (place m bp s) bp) = ALLOC.
Proof.
  intros Hs H8 Hne. unfold place.
  destruct (GET_SIZE m (HDRP void_ptr bp) >? s); apply alloc_footer; assumption.
Qed.

Lemma MAX_cases a b : (MAX a b = a /\ b <= a) \/ (MAX a b = b /\ a <= b).
Proof.
  unfold MAX. destruct (a >? b) eqn:E.
  - left. split; [reflexivity|]. apply Z.gtb_lt in E. lia.
  - right. split; [reflexivity|]. rewrite Z.gtb_ltb in E. apply Z.ltb_ge in E. lia.
Qed.

(** The size of the block written on the growth path. *)
Lemma MAX_CHUNKSIZE_tag s :
  0 <= s < WORD_MOD -> s mod BS = 0 ->
  0 <= MAX s CHUNKSIZE < WORD_MOD /\ MAX s CHUNKSIZE mod 8 = 0
  /\ MAX s CHUNKSIZE <> 8 /\ MAX s CHUNKSIZE mod BS = 0.
Proof.
  intros Hs H32.
  assert (Hc : CHUNKSIZE = 4096) by reflexivity.
  unfold BS in *. pose proof (Z.div_mod s 32 ltac:(lia)) as Hd. rewrite H32 in Hd.
  destruct (MAX_cases s CHUNKSIZE) as [[-> H]|[-> _]].
  - split; [exact Hs|]. split; [|split; [lia | exact H32]].
    replace s with (0 + 8 * (4 * (s / 32))) by lia. apply mod8_add_mul.
  - rewrite Hc, WORD_MOD_eq. repeat split; try lia; reflexivity.
Qed.

Lemma extend_tags s st bp st' :
  0 <= s < WORD_MOD -> s mod BS = 0 ->
  extend s st = Ret (bp, st') ->
  GET_SIZE (mem st') (HDRP void_ptr bp) = MAX s CHUNKSIZE
  /\ GET_STATUS (mem st') (HDRP void_ptr bp) = ALLOC
  /\ GET_SIZE (mem st') (FTRP void_ptr (mem st') bp) = MAX s CHUNKSIZE
  /\ GET_STATUS (mem st') (FTRP void_ptr (mem st') bp) = ALLOC.
Proof.
  intros Hs H32 He. unfold extend in He.
  destruct (ds_sbrk (ds st) (MAX s CHUNKSIZE)) as [b d1].
  destruct (ds_sbrk d1 0) as [brk d2].
  destruct (brk =? SBRK_FAILED); [discriminate|].
  destruct (b =? SBRK_FAILED); [discriminate|].
  injection He as Hb Hst. subst b st'. cbn [mem set_grown].
  destruct (MAX_CHUNKSIZE_tag s Hs H32) as (Hr & H8 & Hne & _).
  split; [|split].
  - apply alloc_tags; assumption.
  - apply alloc_tags; assumption.
  - apply alloc_footer; assumption.
Qed.

(** C5, as the code has it.  For a request of n bytes, 0 < n <= 2^64 - 48,
    the adjusted size is ceil((n + 16) / 32) * 32.  When mm_malloc returns
    a block, both of its tags, the header and the footer (the word FTRP
    finds from the header), are marked allocated and carry the same size,
    a multiple of 32 and at least n + 16: exactly the adjusted size when
    the policy found a free block, and MAX(adjusted size, CHUNKSIZE) when
    the heap was extended. *)
Theorem malloc_block_size (fuel : nat) (n : Z) (st : mm_state) (bp : Z) (st' : mm_state) :
  0 < n <= WORD_MOD - 48 ->
  mm_malloc fuel n st = Ret (bp, st') ->
  bp <> NULL ->
  adjust n = (n + 2 * TYPE_SIZE + (BS - 1)) / BS * BS /\
  GET_STATUS (mem st') (HDRP void_ptr bp) = ALLOC /\
  GET_SIZE (mem st') (HDRP void_ptr bp) mod BS = 0 /\
  n + 2 * TYPE_SIZE <= GET_SIZE (mem st') (HDRP void_ptr bp) /\
  GET_STATUS (mem st') (FTRP void_ptr (mem st') bp) = ALLOC /\
  GET_SIZE (mem st') (FTRP void_ptr (mem st') bp)
    = GET_SIZE (mem st') (HDRP void_ptr bp) /\
  exists r st1,
    call_get_free_block fuel (adjust n) st = Ret (r, st1) /\
    (r <> NULL -> bp = r /\ GET_SIZE (mem st') (HDRP void_ptr bp) = adjust n) /\
    (r = NULL ->
     GET_SIZE (mem st') (HDRP void_ptr bp) = MAX (adjust n) CHUNKSIZE).
Proof.
  intros Hn Hm Hbp.
  destruct (adjust_exact n Hn) as (Ea & Ha32 & Hab & Hlt).
  assert (Hc : CHUNKSIZE = 4096) by reflexivity.
  assert (Har : 0 <= adjust n < WORD_MOD) by (unfold TYPE_SIZE in Hab; lia).
  assert (Ha8 : adjust n mod 8 = 0) by (apply mod32_mod8; exact Ha32).
  unfold mm_malloc in Hm.
  destruct (mm_initialized st); [|discriminate]. cbn [negb] in Hm.
  destruct (n =? 0) eqn:En; [apply Z.eqb_eq in En; lia|].
  destruct (call_get_free_block fuel (adjust n) st) as [[r st1]| | | |] eqn:Ec;
    try discriminate.
  cbn [bind] in Hm.
  destruct (r =? NULL) eqn:Er; cbn [negb] in Hm.
  - apply Z.eqb_eq in Er.
    destruct (extend_tags _ _ _ _ Har Ha32 Hm) as (Es & Et & Fs & Ft).
    destruct (MAX_CHUNKSIZE_tag _ Har Ha32) as (_ & _ & _ & Hx32).
    split; [exact Ea|]. split; [exact Et|]. rewrite Fs, Es.
    split; [exact Hx32|]. split; [|split; [exact Ft | split; [reflexivity|]]].
    + destruct (MAX_cases (adjust n) CHUNKSIZE) as [[-> _]|[-> H]]; lia.
    + exists r, st1. split; [reflexivity|]. split; [contradiction | reflexivity].
  - apply Z.eqb_neq in Er. injection Hm as Hb Hst. subst bp st'. cbn [mem set_mem].
    assert (Hne : adjust n <> 8) by (unfold TYPE_SIZE in Hab; lia).
    destruct (place_tags (mem st1) r (adjust n) Har Ha8 Hne) as [Es Et].
    destruct (place_footer (mem st1) r (adjust n) Har Ha8 Hne) as [Fs Ft].
    split; [exact Ea|]. split; [exact Et|]. rewrite Fs, Es.
    split; [exact Ha32|]. split; [lia|]. split; [exact Ft|]. split; [reflexivity|].
    exists r, st1. split; [reflexivity|]. split; [split; reflexivity | contradiction].
Qed.

Lemma malloc_block_size_witness :
  adjust 40 = (40 + 2 * TYPE_SIZE + (BS - 1)) / BS * BS /\
  GET_STATUS (mem (after_malloc 40 (fresh ap_FirstFit OldBreak))) (HDRP void_ptr 4136)
    = ALLOC /\
  GET_SIZE (mem (after_malloc 40 (fresh ap_FirstFit OldBreak))) (HDRP void_ptr 4136)
    mod BS = 0 /\
  40 + 2 * TYPE_SIZE
    <= GET_SIZE (mem (after_malloc 40 (fresh ap_FirstFit OldBreak))) (HDRP void_ptr 4136) /\
  GET_STATUS (mem (after_malloc 40 (fresh ap_FirstFit OldBreak)))
             (FTRP void_ptr (mem (after_malloc 40 (fresh ap_FirstFit OldBreak))) 4136)
    = ALLOC /\
  GET_SIZE (mem (after_malloc 40 (fresh ap_FirstFit OldBreak)))
           (FTRP void_ptr (mem (after_malloc 40 (fresh ap_FirstFit OldBreak))) 4136)
    = GET_SIZE (mem (after_malloc 40 (fresh ap_FirstFit OldBreak))) (HDRP void_ptr 4136) /\
  exists r st1,
    call_get_free_block 100 (adjust 40) (fresh ap_FirstFit OldBreak) = Ret (r, st1) /\
    (r <> NULL ->
     4136 = r /\
     GET_SIZE (mem (after_malloc 40 (fresh ap_FirstFit OldBreak))) (HDRP void_ptr 4136)
       = adjust 40) /\
    (r = NULL ->
     GET_SIZE (mem (after_malloc 40 (fresh ap_FirstFit OldBreak))) (HDRP void_ptr 4136)
       = MAX (adjust 40) CHUNKSIZE).
Proof.
  apply (malloc_block_size 100 40 (fresh ap_FirstFit OldBreak) 4136
           (after_malloc 40 (fresh ap_FirstFit OldBreak))).
  - vm_compute. split; congruence.
  - apply returned_malloc. vm_compute. reflexivity.
  - vm_compute. congruence.
Defined.

(** C5, counterexamples to the claim as stated.  With no free block left,
    mm_malloc(40) extends the heap and tags the returned block with 4096,
    not with ceil(56 / 32) * 32 = 64.  And for the request 2^64 - 1 the
    computation of the adjusted size wraps around: the block handed out has
    size 32. *)
Lemma malloc_block_size_not_adjusted :
  (exists bp st',
     mm_malloc 100 40 full = Ret (bp, st') /\ bp <> NULL /\
     GET_SIZE (mem st') (HDRP void_ptr bp) = 4096 /\
     (40 + 16 + 31) / 32 * 32 = 64) /\
  (exists bp st',
     mm_malloc 100 (WORD_MOD - 1) (fresh ap_FirstFit OldBreak) = Ret (bp, st') /\
     bp <> NULL /\
     GET_SIZE (mem st') (HDRP void_ptr bp) = 32).
Proof.
  split.
  - exists 8192, (after_malloc 40 full).
    split; [apply returned_malloc; vm_compute; reflexivity|].
    repeat split; try (vm_compute; reflexivity). vm_compute; congruence.
  - exists 4136, (after_malloc (WORD_MOD - 1) (fresh ap_FirstFit OldBreak)).
    split; [apply returned_malloc; vm_compute; reflexivity|].
    repeat split; try (vm_compute; reflexivity). vm_compute; congruence.
Qed.

(** ** Release of a block that is already free *)

Lemma wrap_add8 p k : wrap (p + 8 * k) mod 8 = p mod 8.
Proof. rewrite wrap_mod8. apply mod8_add_mul. Qed.

Lemma GET_SIZE_eight m p : GET_SIZE m p = 8 * (GET m p / 8).
Proof. apply SIZE_div, GET_range. Qed.

Lemma PREV_PTR_mod8 t p : PREV_PTR t p mod 8 = p mod 8.
Proof.
  unfold PREV_PTR, TYPE_SIZE.
  replace (p - stride t * 8) with (p + 8 * (- stride t)) by lia.
  apply wrap_add8.
Qed.

Lemma HDRP_mod8 t p : HDRP t p mod 8 = p mod 8.
Proof. apply PREV_PTR_mod8. Qed.

Lemma FTRP_mod8 t m p : FTRP t m p mod 8 = p mod 8.
Proof.
  unfold FTRP. rewrite PREV_PTR_mod8, GET_SIZE_eight.
  replace (HDRP t p + stride t * (8 * (GET m (HDRP t p) / 8)))
    with (HDRP t p + 8 * (stride t * (GET m (HDRP t p) / 8))) by lia.
  rewrite wrap_add8. apply HDRP_mod8.
Qed.

Lemma NEXT_BLKP_mod8 t m p : NEXT_BLKP t m p mod 8 = p mod 8.
Proof.
  unfold NEXT_BLKP. rewrite GET_SIZE_eight.
  replace (p + stride t * (8 * (GET m (HDRP t p) / 8)))
    with (p + 8 * (stride t * (GET m (HDRP t p) / 8))) by lia.
  apply wrap_add8.
Qed.

Lemma PREV_BLKP_mod8 t m p : PREV_BLKP t m p mod 8 = p mod 8.
Proof.
  unfold PREV_BLKP. rewrite GET_SIZE_eight.
  replace (p - stride t * (8 * (GET m (PREV_PTR t (HDRP t p)) / 8)))
    with (p + 8 * (- (stride t * (GET m (PREV_PTR t (HDRP t p)) / 8)))) by lia.
  apply wrap_add8.
Qed.

Lemma add_mod8_0 x y : x mod 8 = 0 -> y mod 8 = 0 -> (x + y) mod 8 = 0.
Proof.
  intros Hx Hy. pose proof (Z.div_mod y 8 ltac:(lia)) as Hd. rewrite Hy in Hd.
  replace (x + y) with (x + 8 * (y / 8)) by lia.
  rewrite mod8_add_mul. exact Hx.
Qed.

Lemma wrap_mod8_0 x : x mod 8 = 0 -> wrap x mod 8 = 0.
Proof. intros H. rewrite wrap_mod8. exact H. Qed.

Lemma PACK_FREE_mod8 s : s mod 8 = 0 -> PACK s FREE mod 8 = 0.
Proof. intros H. rewrite PACK_FREE. exact H. Qed.

Create HintDb tags.
#[local] Hint Resolve GET_SIZE_mod8 add_mod8_0 wrap_mod8_0 PACK_FREE_mod8 : tags.

(** A tag written with status FREE reads back FREE. *)
Lemma PUT_free_same m a v : v mod 8 = 0 -> GET_STATUS (PUT m a v) a = 0.
Proof.
  intros Hv. unfold GET_STATUS. rewrite GET_PUT_same, STATUS_mod, wrap_mod8.
  exact Hv.
Qed.

(** Writing a FREE tag at an address in the same residue class modulo 8
    cannot turn a FREE status into another one. *)
Lemma PUT_keeps_free m a q v :
  q mod 8 = a mod 8 -> v mod 8 = 0 ->
  GET_STATUS m a = 0 -> GET_STATUS (PUT m q v) a = 0.
Proof.
  intros Hc Hv Ha. destruct (Z.eq_dec q a) as [->|Hne].
  - apply PUT_free_same. exact Hv.
  - unfold GET_STATUS in *. rewrite GET_PUT_other by assumption. exact Ha.
Qed.

Ltac tag_address :=
  rewrite ?FTRP_mod8, ?HDRP_mod8, ?NEXT_BLKP_mod8, ?PREV_BLKP_mod8;
  solve [reflexivity | assumption | symmetry; assumption].

Ltac keep_free :=
  repeat (apply PUT_keeps_free; [tag_address | solve [auto 6 with tags] | ]).

Ltac free_since_written :=
  repeat first
    [ apply PUT_free_same; solve [auto 6 with tags]
    | apply PUT_keeps_free; [tag_address | solve [auto 6 with tags] | ] ].

(** Every word mm_free writes carries status FREE, and lies in the residue
    class of [ptr] modulo 8. *)
Lemma mm_free_keeps_free ptr st st' a :
  mm_free ptr st = Ret st' -> ptr mod 8 = a mod 8 ->
  GET_STATUS (mem st) a = 0 -> GET_STATUS (mem st') a = 0.
Proof.
  intros Hf Hc Ha. unfold mm_free in Hf.
  destruct (mm_initialized st); [|discriminate]. cbn [negb] in Hf.
  destruct (GET_STATUS (mem st) (HDRP void_ptr ptr) =? 0); [discriminate|].
  repeat match type of Hf with
         | (if ?c then _ else _) = _ => destruct c
         end;
    injection Hf as <-; cbn [mem set_mem]; keep_free; exact Ha.
Qed.

Lemma mm_free_header_free ptr st st' :
  mm_free ptr st = Ret st' ->
  GET_STATUS (mem st') (HDRP void_ptr ptr) = 0 /\ mm_initialized st' = true.
Proof.
  intros Hf. unfold mm_free in Hf.
  destruct (mm_initialized st) eqn:Hi; [|discriminate]. cbn [negb] in Hf.
  destruct (GET_STATUS (mem st) (HDRP void_ptr ptr) =? 0); [discriminate|].
  repeat match type of Hf with
         | (if ?c then _ else _) = _ => destruct c
         end;
    injection Hf as <-; cbn [mem set_mem mm_initialized]; (split; [|exact Hi]);
    free_since_written.
Qed.

Lemma mm_free_initialized ptr st st' :
  mm_free ptr st = Ret st' -> mm_initialized st' = mm_initialized st.
Proof.
  intros Hf. unfold mm_free in Hf.
  destruct (mm_initialized st) eqn:Hi; [|discriminate]. cbn [negb] in Hf.
  destruct (GET_STATUS (mem st) (HDRP void_ptr ptr) =? 0); [discriminate|].
  repeat match type of Hf with
         | (if ?c then _ else _) = _ => destruct c
         end;
    injection Hf as <-; cbn [mm_initialized set_mem]; exact Hi.
Qed.

Lemma free_all_keeps_free ptrs :
  forall st st' a,
    Forall (fun q => q mod 8 = a mod 8) ptrs ->
    free_all ptrs st = Ret st' ->
    GET_STATUS (mem st) a = 0 ->
    GET_STATUS (mem st') a = 0 /\ mm_initialized st' = mm_initialized st.
Proof.
  induction ptrs as [|q rest IH]; intros st st' a Hall Hr Ha.
  - injection Hr as <-. split; [exact Ha | reflexivity].
  - inversion Hall as [|? ? Hq Hrest]; subst.
    cbn [free_all] in Hr.
    destruct (mm_free q st) as [st1| | | |] eqn:Hf; try discriminate.
    cbn [bind] in Hr.
    destruct (IH st1 st' a Hrest Hr) as [H1 H2].
    + exact (mm_free_keeps_free q st st1 a Hf Hq Ha).
    + split; [exact H1|]. rewrite H2. exact (mm_free_initialized q st st1 Hf).
Qed.

(** Releases alone cannot hide a double free.  mm_free on a payload
    pointer whose header tag reads FREE ends in PANIC with the double-free
    diagnostic.  After a release of [ptr] that returned, the header tag of
    [ptr] reads FREE, and it still does after any further releases (of
    pointers aligned like [ptr]); so releasing [ptr] again, with nothing
    but releases in between, ends in the same PANIC. *)
Lemma double_free_is_fatal (ptr : Z) (st : mm_state) :
  mm_initialized st = true ->
  (GET_STATUS (mem st) (HDRP void_ptr ptr) = FREE ->
   mm_free ptr st = Panic "mm_free" "You're trying to free already free block.") /\
  (forall st1 others st2,
     mm_free ptr st = Ret st1 ->
     Forall (fun q => q mod 8 = ptr mod 8) others ->
     free_all others st1 = Ret st2 ->
     mm_free ptr st2 = Panic "mm_free" "You're trying to free already free block.").
Proof.
  intros Hi.
  assert (Hp : forall s, mm_initialized s = true ->
                         GET_STATUS (mem s) (HDRP void_ptr ptr) = FREE ->
                         mm_free ptr s
                         = Panic "mm_free" "You're trying to free already free block.").
  { intros s Hs Hf. unfold mm_free. rewrite Hs, Hf. reflexivity. }
  split.
  - apply Hp. exact Hi.
  - intros st1 others st2 H1 Hall H2.
    destruct (mm_free_header_free ptr st st1 H1) as [Hh Hi1].
    assert (Hall' : Forall (fun q => q mod 8 = HDRP void_ptr ptr mod 8) others).
    { rewrite HDRP_mod8. exact Hall. }
    destruct (free_all_keeps_free others st1 st2 _ Hall' H2 Hh) as [Hh2 Hi2].
    apply Hp; [rewrite Hi2; exact Hi1 | exact Hh2].
Qed.

(** On the five blocks of [five]: E released twice in a row, and E
    released, D released, E released again. *)
Lemma double_free_is_fatal_on_five :
  mm_free 4424 (after_free 4424 five)
    = Panic "mm_free" "You're trying to free already free block." /\
  mm_free 4424 (after_free 4328 (after_free 4424 five))
    = Panic "mm_free" "You're trying to free already free block.".
Proof.
  split.
  - apply (proj1 (double_free_is_fatal 4424 (after_free 4424 five) eq_refl)).
    vm_compute. reflexivity.
  - apply (proj2 (double_free_is_fatal 4424 five eq_refl)
             (after_free 4424 five) [4328] (after_free 4328 (after_free 4424 five))).
    + apply returned_free. vm_compute. reflexivity.
    + repeat constructor.
    + cbn [free_all].
      rewrite (returned_free 4328 (after_free 4424 five)) by (vm_compute; reflexivity).
      reflexivity.
Defined.

(** C6, a run on which the second release goes unnoticed.  First fit, five
    blocks A..E handed out by mm_malloc, each pointer as returned; the
    driver stores one word of data at the start of A, C, D and E.  E (4424)
    is released, then C (4264): the coalescing code of mm_free reads its
    neighbour tags through TYPE* pointers, 64 bytes low, that is from the
    first payload words of A and C, takes the data word of C for a free
    neighbour of 8 bytes and records 72 bytes in the header of C.  The
    header of E still reads FREE.  mm_malloc(70) then steps from the header
    of C to the address 4328, which is the first payload word of D, takes
    the data word 96 stored there for a free block, and returns 4336; the
    70 bytes from 4336 end below the block of E, but the footer written
    for the 96 bytes lies on the header of E (4416) and marks it allocated.
    The second mm_free(4424) returns normally: no PANIC. *)
Theorem double_free_goes_unnoticed :
  ptr_of (mm_malloc 100 40 (fresh ap_FirstFit OldBreak)) = Some 4136 /\
  ptr_of (mm_malloc 100 40 (after_malloc 40 (fresh ap_FirstFit OldBreak)))
    = Some 4200 /\
  ptr_of (mm_malloc 100 40
            (after_malloc 40 (after_malloc 40 (fresh ap_FirstFit OldBreak))))
    = Some 4264 /\
  ptr_of (mm_malloc 100 80
            (after_malloc 40 (after_malloc 40
               (after_malloc 40 (fresh ap_FirstFit OldBreak)))))
    = Some 4328 /\
  ptr_of (mm_malloc 100 40
            (after_malloc 80 (after_malloc 40 (after_malloc 40
               (after_malloc 40 (fresh ap_FirstFit OldBreak))))))
    = Some 4424 /\
  mm_free 4424 five_in_use = Ret (after_free 4424 five_in_use) /\
  GET_STATUS (mem (after_free 4424 five_in_use)) (HDRP void_ptr 4424) = FREE /\
  mm_free 4264 (after_free 4424 five_in_use)
    = Ret (after_free 4264 (after_free 4424 five_in_use)) /\
  GET_STATUS (mem (after_free 4264 (after_free 4424 five_in_use))) (HDRP void_ptr 4424)
    = FREE /\
  mm_malloc 100 70 (after_free 4264 (after_free 4424 five_in_use))
    = Ret (4336, after_malloc 70 (after_free 4264 (after_free 4424 five_in_use))) /\
  4336 + 70 <= HDRP void_ptr 4424 /\
  GET (mem (after_malloc 70 (after_free 4264 (after_free 4424 five_in_use))))
      (HDRP void_ptr 4424)
    = PACK 96 ALLOC /\
  mm_free 4424 (after_malloc 70 (after_free 4264 (after_free 4424 five_in_use)))
    = Ret (after_free 4424
             (after_malloc 70 (after_free 4264 (after_free 4424 five_in_use)))).
Proof.
  repeat match goal with |- _ /\ _ => split end;
    first [ apply returned_free; vm_compute; reflexivity
          | apply returned_malloc; vm_compute; reflexivity
          | vm_compute; reflexivity
          | vm_compute; congruence ].
Qed.

(** ** Next fit *)

Lemma set_nf_ptr_same st : set_nf_ptr st (nf_ptr st) = st.
Proof. destruct st. reflexivity. Qed.

Lemma scan_stop_first_fit m size bs e :
  forall p, walk m p bs e ->
            match first_fit size p bs with
            | Some a => scan_stop size p bs = a /\ a < e
            | None => e <= scan_stop size p bs
            end.
Proof.
  induction bs as [|[sz stt] rest IH]; intros p Hw.
  - exact Hw.
  - cbn [walk] in Hw. destruct Hw as (Hlt & _ & _ & Hrest).
    cbn [first_fit scan_stop]. destruct (fits size (sz, stt)).
    + split; [reflexivity | exact Hlt].
    + apply IH. exact Hrest.
Qed.

Lemma nf_loop_walk size bs :
  forall fuel st,
    walk (mem st) (nf_ptr st) bs (heap_end st) ->
    (List.length bs < fuel)%nat ->
    nf_loop fuel size st = Ret (set_nf_ptr st (scan_stop size (nf_ptr st) bs)).
Proof.
  induction bs as [|[sz stt] rest IH]; intros fuel st Hw Hf.
  - destruct fuel as [|f]; [inversion Hf|].
    cbn [walk] in Hw. cbn [nf_loop scan_stop].
    replace (nf_ptr st <? heap_end st) with false
      by (symmetry; apply Z.ltb_ge; exact Hw).
    cbn [andb]. rewrite set_nf_ptr_same. reflexivity.
  - destruct fuel as [|f]; [inversion Hf|].
    cbn [walk] in Hw. destruct Hw as (Hlt & Hsz & Hst & Hrest).
    cbn [nf_loop scan_stop]. rewrite Hsz, Hst.
    replace (nf_ptr st <? heap_end st) with true
      by (symmetry; apply Z.ltb_lt; exact Hlt).
    cbn [andb]. unfold fits. cbn [fst snd].
    destruct ((size >? sz) || (stt =? ALLOC)); cbn [negb].
    + rewrite (IH f (set_nf_ptr st (wrap (nf_ptr st + sz)))).
      * reflexivity.
      * exact Hrest.
      * cbn [List.length] in Hf. lia.
    + rewrite set_nf_ptr_same. reflexivity.
Qed.

(** C8.  Let [bs] be the blocks from the cursor (from heap_start when the
    cursor is NULL) up to heap_end.  With fuel for the scan, next fit
    returns: the payload of the first block of [bs] that is not allocated
    and is large enough, leaving the cursor on that very block; or, when
    [bs] has no such block, NULL with the cursor reset to NULL.  Blocks
    below the cursor play no part in the answer, and after a failed search
    the cursor is NULL, so the next call scans from heap_start. *)
Theorem next_fit_scan (fuel : nat) (size : Z) (st : mm_state) (bs : list (Z * Z)) :
  mm_initialized st = true ->
  walk (mem st) (if nf_ptr st =? NULL then heap_start st else nf_ptr st) bs
       (heap_end st) ->
  (List.length bs < fuel)%nat ->
  nf_get_free_block fuel size st =
    match first_fit size (if nf_ptr st =? NULL then heap_start st else nf_ptr st) bs with
    | Some hdrp => Ret (NEXT_PTR void_ptr hdrp, set_nf_ptr st hdrp)
    | None => Ret (NULL, set_nf_ptr st NULL)
    end.
Proof.
  intros Hi Hw Hf. unfold nf_get_free_block. rewrite Hi. cbn [negb].
  set (start := if nf_ptr st =? NULL then heap_start st else nf_ptr st) in *.
  set (st0 := if nf_ptr st =? NULL then set_nf_ptr st (heap_start st) else st).
  assert (E0 : nf_ptr st0 = start /\ mem st0 = mem st /\ heap_end st0 = heap_end st
               /\ forall p, set_nf_ptr st0 p = set_nf_ptr st p).
  { subst st0 start. destruct (nf_ptr st =? NULL); repeat split; reflexivity. }
  destruct E0 as (En & Em & Ee & Es).
  rewrite (nf_loop_walk size bs fuel st0)
    by (try rewrite En, Em, Ee; assumption).
  cbn [bind]. rewrite Es, En. cbn [nf_ptr heap_end set_nf_ptr].
  pose proof (scan_stop_first_fit (mem st) size bs (heap_end st) start Hw) as Hs.
  destruct (first_fit size start bs) as [a|].
  - destruct Hs as [-> Hlt].
    replace (a <? heap_end st) with true by (symmetry; apply Z.ltb_lt; exact Hlt).
    reflexivity.
  - replace (scan_stop size start bs <? heap_end st) with false
      by (symmetry; apply Z.ltb_ge; exact Hs).
    reflexivity.
Qed.

(** The cursor of [nf_behind] is on the last block (4320) and the free
    64-byte block at 4256 lies below it: a request for 64 bytes fails and
    resets the cursor.  The call that follows starts at heap_start (4128)
    and finds that block, leaving the cursor on it. *)
Lemma next_fit_scan_witness :
  nf_ptr nf_behind = 4320 /\
  heap_start nf_behind = 4128 /\
  nf_get_free_block 2 64 nf_behind = Ret (NULL, set_nf_ptr nf_behind NULL) /\
  nf_get_free_block 5 64 (set_nf_ptr nf_behind NULL)
    = Ret (4264, set_nf_ptr nf_behind 4256).
Proof.
  split; [vm_compute; reflexivity|]. split; [vm_compute; reflexivity|]. split.
  - apply (next_fit_scan 2 64 nf_behind [(3840, 1)]).
    + vm_compute. reflexivity.
    + cbn [walk]. repeat split; vm_compute; congruence.
    + cbn [List.length]. lia.
  - rewrite (next_fit_scan 5 64 (set_nf_ptr nf_behind NULL)
               [(64, 1); (64, 1); (64, 0); (3840, 1)]).
    + replace (first_fit 64
                 (if nf_ptr (set_nf_ptr nf_behind NULL) =? NULL
                  then heap_start (set_nf_ptr nf_behind NULL)
                  else nf_ptr (set_nf_ptr nf_behind NULL))
                 [(64, 1); (64, 1); (64, 0); (3840, 1)])
        with (Some 4256) by (vm_compute; reflexivity).
      reflexivity.
    + vm_compute. reflexivity.
    + cbn [walk]. repeat split; vm_compute; congruence.
    + cbn [List.length]. lia.
Defined.

(** ** mm_calloc *)


Lemma memset0_zero m p n a : p <= a < p + n -> memset0 m p n a = 0.
Proof.
  intros H. unfold memset0.
  replace ((p <=? a) && (a <? p + n)) with true; [reflexivity|].
  symmetry. apply andb_true_intro. split; [apply Z.leb_le | apply Z.ltb_lt]; lia.
Qed.

Lemma memset_in_range m p n :
  p + n <= WORD_MOD -> memset m p n = Ret (memset0 m p n).
Proof.
  intros H. unfold memset.
  replace (p + n <=? WORD_MOD) with true by (symmetry; apply Z.leb_le; exact H).
  reflexivity.
Qed.

Lemma GET_memset0_below m p n q : q + 8 <= p -> GET (memset0 m p n) q = GET m q.
Proof.
  intros H. unfold GET. apply load_bytes_ext. intros a Ha. unfold memset0.
  replace (p <=? a) with false; [reflexivity|].
  symmetry. apply Z.leb_gt. lia.
Qed.

(** ** First fit and best fit on a block sequence *)

Lemma ff_loop_walk m he size bs :
  forall fuel p,
    walk m p bs he -> (List.length bs < fuel)%nat ->
    ff_loop fuel m he size p = Ret (scan_stop size p bs).
Proof.
  induction bs as [|[sz stt] rest IH]; intros fuel p Hw Hf.
  - destruct fuel as [|f]; [inversion Hf|].
    cbn [walk] in Hw. cbn [ff_loop scan_stop].
    replace (p <? he) with false by (symmetry; apply Z.ltb_ge; exact Hw).
    reflexivity.
  - destruct fuel as [|f]; [inversion Hf|].
    cbn [walk] in Hw. destruct Hw as (Hlt & Hsz & Hst & Hrest).
    cbn [ff_loop scan_stop]. rewrite Hsz, Hst.
    replace (p <? he) with true by (symmetry; apply Z.ltb_lt; exact Hlt).
    cbn [andb]. unfold fits. cbn [fst snd].
    destruct ((size >? sz) || (stt =? ALLOC)); cbn [negb].
    + apply IH; [exact Hrest | cbn [List.length] in Hf; lia].
    + reflexivity.
Qed.

(** On a heap whose blocks lead from heap_start to heap_end, first fit
    returns, with the payload of the first block that is large enough and
    not allocated, or NULL when there is none. *)
Lemma first_fit_scan (fuel : nat) (size : Z) (st : mm_state) (bs : list (Z * Z)) :
  mm_initialized st = true ->
  walk (mem st) (heap_start st) bs (heap_end st) ->
  (List.length bs < fuel)%nat ->
  ff_get_free_block fuel size st =
    match first_fit size (heap_start st) bs with
    | Some hdrp => Ret (NEXT_PTR void_ptr hdrp, st)
    | None => Ret (NULL, st)
    end.
Proof.
  intros Hi Hw Hf. unfold ff_get_free_block. rewrite Hi. cbn [negb].
  rewrite (ff_loop_walk _ _ size bs fuel _ Hw Hf). cbn [bind].
  pose proof (scan_stop_first_fit (mem st) size bs (heap_end st) _ Hw) as Hs.
  destruct (first_fit size (heap_start st) bs) as [a|].
  - destruct Hs as [-> Hlt].
    replace (a <? heap_end st) with true by (symmetry; apply Z.ltb_lt; exact Hlt).
    reflexivity.
  - replace (scan_stop size (heap_start st) bs <? heap_end st) with false
      by (symmetry; apply Z.ltb_ge; exact Hs).
    reflexivity.
Qed.

Lemma bf_loop_walk m he size bs :
  forall fuel p minSize bf_ptr,
    walk m p bs he -> (List.length bs < fuel)%nat ->
    bf_loop fuel m he size p minSize bf_ptr = Ret (bf_pick size p bs minSize bf_ptr).
Proof.
  induction bs as [|[sz stt] rest IH]; intros fuel p minSize bf_ptr Hw Hf.
  - destruct fuel as [|f]; [inversion Hf|].
    cbn [walk] in Hw. cbn [bf_loop bf_pick].
    replace (p <? he) with false by (symmetry; apply Z.ltb_ge; exact Hw).
    reflexivity.
  - destruct fuel as [|f]; [inversion Hf|].
    cbn [walk] in Hw. destruct Hw as (Hlt & Hsz & Hst & Hrest).
    cbn [bf_loop bf_pick]. rewrite Hsz, Hst.
    replace (p <? he) with true by (symmetry; apply Z.ltb_lt; exact Hlt).
    unfold candidate. cbn [fst snd].
    assert (Hf' : (List.length rest < f)%nat) by (cbn [List.length] in Hf; lia).
    destruct ((size <=? sz) && (stt =? FREE)); cbn [andb];
      [destruct (sz <? minSize)|]; apply IH; assumption.
Qed.

(** What the best-fit loop ends with: its initial pointer when no block is
    free, large enough and smaller than the initial bound; otherwise the
    address of such a block that is strictly smaller than every such block
    before it and at most as large as every such block after it. *)
Lemma bf_pick_minimal size bs :
  forall p minSize bf_ptr,
    ((forall a b, In (a, b) (layout p bs) -> candidate size minSize b = false)
     /\ bf_pick size p bs minSize bf_ptr = bf_ptr)
    \/
    (exists pre b post,
        layout p bs = pre ++ (bf_pick size p bs minSize bf_ptr, b) :: post
        /\ candidate size minSize b = true
        /\ (forall a' b', In (a', b') pre ->
                          candidate size minSize b' = true -> fst b < fst b')
        /\ (forall a' b', In (a', b') post ->
                          candidate size minSize b' = true -> fst b <= fst b')).
Proof.
  assert (Hweak : forall m1 m2 b, candidate size m1 b = true ->
                                  candidate size m2 b = false -> m2 <= fst b).
  { intros m1 m2 b. unfold candidate.
    destruct ((size <=? fst b) && (snd b =? FREE)); cbn [andb]; [|discriminate].
    intros _ H. apply Z.ltb_ge in H. exact H. }
  assert (Hstr : forall m1 m2 b, candidate size m1 b = true -> m1 <= m2 ->
                                 candidate size m2 b = true).
  { intros m1 m2 b. unfold candidate.
    destruct ((size <=? fst b) && (snd b =? FREE)); cbn [andb]; [|discriminate].
    intros H Hle. apply Z.ltb_lt in H. apply Z.ltb_lt. lia. }
  assert (Hlt : forall m b, candidate size m b = true -> fst b < m).
  { intros m b. unfold candidate.
    destruct ((size <=? fst b) && (snd b =? FREE)); cbn [andb]; [|discriminate].
    apply Z.ltb_lt. }
  induction bs as [|b rest IH]; intros p minSize bf_ptr.
  - left. split; [intros a b []|reflexivity].
  - cbn [layout bf_pick]. destruct (candidate size minSize b) eqn:Ec.
    + right. destruct (IH (wrap (p + fst b)) (fst b) p)
        as [[Hnone Hr] | (pre & b' & post & Hl & Hc & Hpre & Hpost)].
      * exists [], b, (layout (wrap (p + fst b)) rest). rewrite Hr.
        split; [reflexivity|]. split; [exact Ec|]. split; [intros a' b' []|].
        intros a' b' Hin Hc'. apply (Hweak minSize (fst b) b' Hc').
        exact (Hnone a' b' Hin).
      * exists ((p, b) :: pre), b', post. rewrite Hl.
        split; [reflexivity|].
        pose proof (Hlt _ _ Hc) as Hb'. pose proof (Hlt _ _ Ec) as Hb.
        split; [apply (Hstr (fst b)); [exact Hc | lia]|]. split.
        -- intros a' c [Heq|Hin] Hc'.
           ++ injection Heq as <- <-. exact Hb'.
           ++ destruct (candidate size (fst b) c) eqn:E.
              ** exact (Hpre a' c Hin E).
              ** pose proof (Hweak _ _ _ Hc' E). lia.
        -- intros a' c Hin Hc'. destruct (candidate size (fst b) c) eqn:E.
           ++ exact (Hpost a' c Hin E).
           ++ pose proof (Hweak _ _ _ Hc' E). lia.
    + destruct (IH (wrap (p + fst b)) minSize bf_ptr)
        as [[Hnone Hr] | (pre & b' & post & Hl & Hc & Hpre & Hpost)].
      * left. split; [|exact Hr].
        intros a c [Heq|Hin]; [injection Heq as <- <-; exact Ec | exact (Hnone a c Hin)].
      * right. exists ((p, b) :: pre), b', post. rewrite Hl.
        split; [reflexivity|]. split; [exact Hc|]. split; [|exact Hpost].
        intros a' c [Heq|Hin] Hc'.
        -- injection Heq as <- <-. rewrite Ec in Hc'. discriminate.
        -- exact (Hpre a' c Hin Hc').
Qed.

(** On a heap whose blocks lead from heap_start to heap_end, best fit
    returns, with the payload of the block [bf_pick] designates among the
    free blocks that are large enough and smaller than HEAP_SIZE. *)
Lemma best_fit_scan (fuel : nat) (size : Z) (st : mm_state) (bs : list (Z * Z)) :
  mm_initialized st = true ->
  walk (mem st) (heap_start st) bs (heap_end st) ->
  (List.length bs < fuel)%nat ->
  bf_get_free_block fuel size st =
    Ret (if bf_pick size (heap_start st) bs (HEAP_SIZE st) NULL =? NULL
         then NULL
         else NEXT_PTR void_ptr (bf_pick size (heap_start st) bs (HEAP_SIZE st) NULL),
         st).
Proof.
  intros Hi Hw Hf. unfold bf_get_free_block. rewrite Hi. cbn [negb].
  rewrite (bf_loop_walk _ _ size bs fuel _ _ _ Hw Hf). cbn [bind].
  destruct (bf_pick size (heap_start st) bs (HEAP_SIZE st) NULL =? NULL);
    reflexivity.
Qed.

(** ** Best fit on the initial heap *)

(** C1, the code at the failing input.  Right after mm_init the heap is
    one free block of HEAP_SIZE = 4032 bytes, which satisfies a request for
    64 bytes.  Best fit starts from minSize = HEAP_SIZE and takes a block
    only when its size is strictly smaller, so it answers NULL; first fit
    and next fit return the block, and mm_malloc(40) under best fit extends
    the heap instead of using it. *)
Theorem best_fit_misses_whole_heap_block :
  returned (mm_init ap_BestFit (boot (region OldBreak) zero_memory)) = true /\
  heap_start (fresh ap_BestFit OldBreak) = 4128 /\
  heap_end (fresh ap_BestFit OldBreak) = 8160 /\
  HEAP_SIZE (fresh ap_BestFit OldBreak) = 4032 /\
  walk (mem (fresh ap_BestFit OldBreak)) 4128 [(4032, FREE)] 8160 /\
  ptr_of (bf_get_free_block 100 64 (fresh ap_BestFit OldBreak)) = Some NULL /\
  ptr_of (ff_get_free_block 100 64 (fresh ap_BestFit OldBreak)) = Some 4136 /\
  ptr_of (nf_get_free_block 100 64 (fresh ap_BestFit OldBreak)) = Some 4136 /\
  ptr_of (mm_malloc 100 40 (fresh ap_BestFit OldBreak)) = Some 8192 /\
  ds_heap_brk (after_malloc 40 (fresh ap_BestFit OldBreak)) = 8192 + 4096.
Proof.
  cbn [walk]. repeat split; vm_compute; congruence.
Qed.

(** Among free blocks smaller than the heap, best fit does pick the
    smallest fitting one: with free blocks of 96, 64 and 3616 bytes, in
    this order, a request for 50 bytes gets the 64-byte block at 4416,
    where first fit takes the 96-byte block at 4256. *)
Lemma best_fit_prefers_smaller_block :
  mm_check 100 two_holes
    = Ret (mk_report [(4128, 64, 1); (4192, 64, 1); (4256, 96, 0); (4352, 64, 1);
                      (4416, 64, 0); (4480, 64, 1); (4544, 3616, 0)] 0 8160 true) /\
  ptr_of (bf_get_free_block 100 50 two_holes) = Some (NEXT_PTR void_ptr 4416) /\
  ptr_of (ff_get_free_block 100 50 two_holes) = Some (NEXT_PTR void_ptr 4256).
Proof.
  repeat split; vm_compute; reflexivity.
Qed.

(** ** Growth of the heap *)

(** C2, the code at the failing input.  After mm_init on the region at
    4096, mm_malloc(5000) finds no fit and extends the data segment by
    MAX(5024, 4096) = 5024 bytes; heap_end moves to 13184 and the end
    sentinel is written there.  The header of the new block is written at
    8184, eight bytes below the old end of the data segment, not at the
    old heap_end 8160, where the old end sentinel stays.  mm_check then
    lists the free block and a block of size 0, counts one error, stops at
    8160 and does not print that the structure is coherent.  The same
    happens when ds_sbrk hands back the new end of the region. *)
Theorem growth_breaks_block_structure :
  ptr_of (mm_malloc 100 5000 (fresh ap_FirstFit OldBreak)) = Some 8192 /\
  adjust 5000 = 5024 /\
  ds_heap_brk (fresh ap_FirstFit OldBreak) = 8192 /\
  ds_heap_brk (grown ap_FirstFit OldBreak) = 8192 + MAX 5024 CHUNKSIZE /\
  heap_end (fresh ap_FirstFit OldBreak) = 8160 /\
  heap_end (grown ap_FirstFit OldBreak) = 13184 /\
  GET (mem (grown ap_FirstFit OldBreak)) 13184 = PACK 0 ALLOC /\
  HDRP void_ptr 8192 = 8184 /\
  GET (mem (grown ap_FirstFit OldBreak)) 8184 = PACK 5024 ALLOC /\
  GET (mem (grown ap_FirstFit OldBreak)) 8160 = PACK 0 ALLOC /\
  mm_check 100 (grown ap_FirstFit OldBreak)
    = Ret (mk_report [(4128, 4032, 0); (8160, 0, 1)] 1 8160 false) /\
  ptr_of (mm_malloc 100 5000 (fresh ap_FirstFit NewBreak)) = Some 13216 /\
  heap_end (grown ap_FirstFit NewBreak) = 13184 /\
  mm_check 100 (grown ap_FirstFit NewBreak)
    = Ret (mk_report [(4128, 4032, 0); (8160, 0, 1)] 1 8160 false).
Proof.
  repeat split; vm_compute; reflexivity.
Qed.

(** When the end of the data segment lies eight bytes past a 32-byte
    boundary, the header of the new block lands on the old end sentinel
    and the check passes. *)
Lemma growth_coherent_at_offset_8 :
  ds_heap_brk grown8 = 4104 + 4096 + 5024 /\
  mm_check 100 grown8
    = Ret (mk_report [(4128, 4064, 0); (8192, 5024, 1)] 0 13216 true).
Proof.
  split; vm_compute; reflexivity.
Qed.

(** ** Termination of the searches *)

Lemma ff_loop_stuck m he size p :
  0 <= p < WORD_MOD -> p < he ->
  GET_SIZE m p = 0 -> GET_STATUS m p = ALLOC ->
  forall fuel, ff_loop fuel m he size p = OutOfFuel.
Proof.
  intros Hp Hlt Hs Ht fuel. induction fuel as [|f IH]; [reflexivity|].
  cbn [ff_loop]. rewrite Hs, Ht, Z.add_0_r, (wrap_small p Hp), IH.
  replace (p <? he) with true by (symmetry; apply Z.ltb_lt; exact Hlt).
  rewrite orb_true_r. reflexivity.
Qed.

Lemma nf_loop_stuck size :
  forall fuel st,
    0 <= nf_ptr st < WORD_MOD -> nf_ptr st < heap_end st ->
    GET_SIZE (mem st) (nf_ptr st) = 0 -> GET_STATUS (mem st) (nf_ptr st) = ALLOC ->
    nf_loop fuel size st = OutOfFuel.
Proof.
  induction fuel as [|f IH]; intros st Hp Hlt Hs Ht; [reflexivity|].
  cbn [nf_loop]. rewrite Hs, Ht, Z.add_0_r, (wrap_small _ Hp), set_nf_ptr_same.
  replace (nf_ptr st <? heap_end st) with true by (symmetry; apply Z.ltb_lt; exact Hlt).
  rewrite orb_true_r. cbn [andb]. apply IH; assumption.
Qed.

Lemma bf_loop_stuck m he size p :
  0 <= p < WORD_MOD -> p < he -> GET_SIZE m p = 0 ->
  forall fuel minSize bf_ptr, bf_loop fuel m he size p minSize bf_ptr = OutOfFuel.
Proof.
  intros Hp Hlt Hs fuel. induction fuel as [|f IH]; intros minSize bf_ptr;
    [reflexivity|].
  cbn [bf_loop]. rewrite Hs, Z.add_0_r, (wrap_small p Hp).
  replace (p <? he) with true by (symmetry; apply Z.ltb_lt; exact Hlt).
  destruct ((size <=? 0) && (GET_STATUS m p =? FREE));
    [destruct (0 <? minSize)|]; apply IH.
Qed.

(** One block that does not fit, then a tag of size 0 below heap_end. *)
Lemma ff_stalls_behind_a_block st size :
  mm_initialized st = true ->
  (heap_start st <? heap_end st)
  && ((size >? GET_SIZE (mem st) (heap_start st))
      || (GET_STATUS (mem st) (heap_start st) =? ALLOC)) = true ->
  wrap (heap_start st + GET_SIZE (mem st) (heap_start st)) < heap_end st ->
  GET_SIZE (mem st) (wrap (heap_start st + GET_SIZE (mem st) (heap_start st))) = 0 ->
  GET_STATUS (mem st) (wrap (heap_start st + GET_SIZE (mem st) (heap_start st))) = ALLOC ->
  forall fuel, ff_get_free_block fuel size st = OutOfFuel.
Proof.
  intros Hi Hc Hlt Hs Ht fuel. unfold ff_get_free_block. rewrite Hi. cbn [negb].
  destruct fuel as [|f]; [reflexivity|].
  cbn [ff_loop]. rewrite Hc.
  rewrite ff_loop_stuck; [reflexivity | apply wrap_range | assumption ..].
Qed.

Lemma nf_stalls_behind_a_block st size :
  mm_initialized st = true -> nf_ptr st = NULL ->
  (heap_start st <? heap_end st)
  && ((size >? GET_SIZE (mem st) (heap_start st))
      || (GET_STATUS (mem st) (heap_start st) =? ALLOC)) = true ->
  wrap (heap_start st + GET_SIZE (mem st) (heap_start st)) < heap_end st ->
  GET_SIZE (mem st) (wrap (heap_start st + GET_SIZE (mem st) (heap_start st))) = 0 ->
  GET_STATUS (mem st) (wrap (heap_start st + GET_SIZE (mem st) (heap_start st))) = ALLOC ->
  forall fuel, nf_get_free_block fuel size st = OutOfFuel.
Proof.
  intros Hi Hn Hc Hlt Hs Ht fuel. unfold nf_get_free_block.
  rewrite Hi, Hn. cbn [negb Z.eqb NULL].
  destruct fuel as [|f]; [reflexivity|].
  cbn [nf_loop nf_ptr set_nf_ptr mem heap_end]. rewrite Hc.
  rewrite nf_loop_stuck; [reflexivity | apply wrap_range | assumption ..].
Qed.

Lemma bf_stalls_behind_a_block st size :
  mm_initialized st = true ->
  heap_start st < heap_end st ->
  wrap (heap_start st + GET_SIZE (mem st) (heap_start st)) < heap_end st ->
  GET_SIZE (mem st) (wrap (heap_start st + GET_SIZE (mem st) (heap_start st))) = 0 ->
  forall fuel, bf_get_free_block fuel size st = OutOfFuel.
Proof.
  intros Hi Hc Hlt Hs fuel. unfold bf_get_free_block. rewrite Hi. cbn [negb].
  destruct fuel as [|f]; [reflexivity|].
  cbn [bf_loop].
  replace (heap_start st <? heap_end st) with true
    by (symmetry; apply Z.ltb_lt; exact Hc).
  destruct ((size <=? GET_SIZE (mem st) (heap_start st))
            && (GET_STATUS (mem st) (heap_start st) =? FREE));
    [destruct (GET_SIZE (mem st) (heap_start st) <? HEAP_SIZE st)|];
    rewrite (bf_loop_stuck (mem st) (heap_end st) size _ (wrap_range _) Hlt Hs f);
    reflexivity.
Qed.

Lemma malloc_stalls fuel size st :
  mm_initialized st = true -> (size =? 0) = false ->
  call_get_free_block fuel (adjust size) st = OutOfFuel ->
  mm_malloc fuel size st = OutOfFuel.
Proof.
  intros Hi Hz Hc. unfold mm_malloc. rewrite Hi, Hz, Hc. reflexivity.
Qed.

(** C3, the code at the failing input.  The states are reached by mm_init
    and one mm_malloc(5000) that extends the heap, under each policy.  The
    old end sentinel (size 0, allocated) then lies inside the heap, at
    8160 < heap_end = 13184, behind the free block of 4032 bytes.  A search
    for 5024 bytes steps over the free block, reaches the sentinel, and
    advances by 0 bytes forever: whatever the bound on the iterations, the
    search, and the mm_malloc(5000) that calls it, do not return. *)
Theorem search_stalls_on_old_sentinel :
  ptr_of (mm_malloc 100 5000 (fresh ap_FirstFit OldBreak)) = Some 8192 /\
  ptr_of (mm_malloc 100 5000 (fresh ap_NextFit OldBreak)) = Some 8192 /\
  ptr_of (mm_malloc 100 5000 (fresh ap_BestFit OldBreak)) = Some 8192 /\
  GET (mem (grown ap_FirstFit OldBreak)) 8160 = PACK 0 ALLOC /\
  heap_end (grown ap_FirstFit OldBreak) = 13184 /\
  (forall fuel, ff_get_free_block fuel 5024 (grown ap_FirstFit OldBreak) = OutOfFuel) /\
  (forall fuel, nf_get_free_block fuel 5024 (grown ap_NextFit OldBreak) = OutOfFuel) /\
  (forall fuel, bf_get_free_block fuel 5024 (grown ap_BestFit OldBreak) = OutOfFuel) /\
  (forall fuel, mm_malloc fuel 5000 (grown ap_FirstFit OldBreak) = OutOfFuel) /\
  (forall fuel, mm_malloc fuel 5000 (grown ap_NextFit OldBreak) = OutOfFuel) /\
  (forall fuel, mm_malloc fuel 5000 (grown ap_BestFit OldBreak) = OutOfFuel).
Proof.
  assert (Hff : forall fuel,
             ff_get_free_block fuel 5024 (grown ap_FirstFit OldBreak) = OutOfFuel)
    by (apply ff_stalls_behind_a_block; vm_compute; reflexivity).
  assert (Hnf : forall fuel,
             nf_get_free_block fuel 5024 (grown ap_NextFit OldBreak) = OutOfFuel)
    by (apply nf_stalls_behind_a_block; vm_compute; reflexivity).
  assert (Hbf : forall fuel,
             bf_get_free_block fuel 5024 (grown ap_BestFit OldBreak) = OutOfFuel)
    by (apply bf_stalls_behind_a_block; vm_compute; reflexivity).
  do 5 (split; [vm_compute; reflexivity|]).
  do 3 (split; [assumption|]).
  split; [|split]; intros fuel; apply malloc_stalls;
    [vm_compute; reflexivity | reflexivity | 
     | vm_compute; reflexivity | reflexivity | 
     | vm_compute; reflexivity | reflexivity | ];
    unfold call_get_free_block.
  - replace (get_free_block (grown ap_FirstFit OldBreak)) with (Some ap_FirstFit)
      by (vm_compute; reflexivity).
    apply Hff.
  - replace (get_free_block (grown ap_NextFit OldBreak)) with (Some ap_NextFit)
      by (vm_compute; reflexivity).
    apply Hnf.
  - replace (get_free_block (grown ap_BestFit OldBreak)) with (Some ap_BestFit)
      by (vm_compute; reflexivity).
    apply Hbf.
Qed.

(** ** Coalescing on release *)

(** C4, the code at the failing input.  Three blocks of 64 bytes are
    allocated at 4128, 4192 and 4256, followed by the free remainder at
    4320.  Releasing the third block (payload 4264) returns; mm_free reads
    the status of the neighbours through [HDRP] applied to [TYPE*]
    pointers, that is 64 bytes (not 8) below their payloads: at 4136 and
    4264, inside the payloads of the first and of the released block,
    instead of the headers 4192 and 4320.  The released block is not merged
    with the free remainder: the listing of mm_check shows two consecutive
    free blocks. *)
Theorem free_leaves_adjacent_free_blocks :
  ptr_of (mm_malloc 100 40 (fresh ap_FirstFit OldBreak)) = Some 4136 /\
  ptr_of (mm_malloc 100 40 (after_malloc 40 (fresh ap_FirstFit OldBreak))) = Some 4200 /\
  ptr_of (mm_malloc 100 40
            (after_malloc 40 (after_malloc 40 (fresh ap_FirstFit OldBreak))))
    = Some 4264 /\
  mm_check 100 (three ap_FirstFit)
    = Ret (mk_report [(4128, 64, 1); (4192, 64, 1); (4256, 64, 1); (4320, 3840, 0)]
                     0 8160 true) /\
  returned (mm_free 4264 (three ap_FirstFit)) = true /\
  HDRP TYPE_ptr (PREV_BLKP void_ptr (mem (three ap_FirstFit)) 4264) = 4136 /\
  HDRP TYPE_ptr (NEXT_BLKP void_ptr (mem (three ap_FirstFit)) 4264) = 4264 /\
  HDRP void_ptr (PREV_BLKP void_ptr (mem (three ap_FirstFit)) 4264) = 4192 /\
  HDRP void_ptr (NEXT_BLKP void_ptr (mem (three ap_FirstFit)) 4264) = 4320 /\
  mm_check 100 three_freed
    = Ret (mk_report [(4128, 64, 1); (4192, 64, 1); (4256, 64, 0); (4320, 3840, 0)]
                     0 8160 true) /\
  adjacent_free [(4128, 64, 1); (4192, 64, 1); (4256, 64, 0); (4320, 3840, 0)] = true.
Proof.
  repeat split; vm_compute; reflexivity.
Qed.

(** * Further properties of the memory manager *)

(** ** Boundary tags *)

Lemma SIZE_STATUS_sum v : 0 <= v < WORD_MOD -> SIZE v + STATUS v = v.
Proof.
  intros Hv. rewrite SIZE_div, STATUS_mod by exact Hv.
  pose proof (Z.div_mod v 8 ltac:(lia)). lia.
Qed.

(** X1.  Round trip of the boundary tag.  A size that is a multiple of 8
    below 2^64 and a status below 8, packed into one word and written to
    memory, are read back unchanged by GET_SIZE and GET_STATUS; and any
    word is the pack of its own size and status. *)
Theorem tag_round_trip (m : memory) (p s t v : Z) :
  0 <= s < WORD_MOD -> s mod 8 = 0 -> 0 <= t < 8 -> 0 <= v < WORD_MOD ->
  SIZE (PACK s t) = s /\ STATUS (PACK s t) = t /\
  GET_SIZE (PUT m p (PACK s t)) p = s /\
  GET_STATUS (PUT m p (PACK s t)) p = t /\
  PACK (SIZE v) (STATUS v) = v /\
  GET (PUT m p v) p = v.
Proof.
  intros Hs H8 Ht Hv.
  assert (E1 : GET_SIZE (PUT m p (PACK s t)) p = s) by (apply GET_SIZE_PUT; assumption).
  assert (E2 : GET_STATUS (PUT m p (PACK s t)) p = t) by (apply GET_STATUS_PUT; assumption).
  assert (Hr : 0 <= PACK s t < WORD_MOD).
  { rewrite PACK_add by assumption. rewrite WORD_MOD_eq in *.
    pose proof (Z.div_mod s 8 ltac:(lia)). lia. }
  assert (E3 : SIZE (PACK s t) = s).
  { unfold GET_SIZE in E1. rewrite GET_PUT_same, (wrap_small _ Hr) in E1. exact E1. }
  assert (E4 : STATUS (PACK s t) = t).
  { unfold GET_STATUS in E2. rewrite GET_PUT_same, (wrap_small _ Hr) in E2. exact E2. }
  split; [exact E3|]. split; [exact E4|]. split; [exact E1|]. split; [exact E2|].
  split.
  - rewrite PACK_add.
    + apply SIZE_STATUS_sum. exact Hv.
    + apply SIZE_mod8. exact Hv.
    + rewrite STATUS_mod. apply Z.mod_pos_bound. lia.
  - rewrite GET_PUT_same. apply wrap_small. exact Hv.
Qed.

Lemma tag_round_trip_witness :
  SIZE (PACK 4032 ALLOC) = 4032 /\ STATUS (PACK 4032 ALLOC) = ALLOC /\
  GET_SIZE (PUT zero_memory 4128 (PACK 4032 ALLOC)) 4128 = 4032 /\
  GET_STATUS (PUT zero_memory 4128 (PACK 4032 ALLOC)) 4128 = ALLOC /\
  PACK (SIZE 4099) (STATUS 4099) = 4099 /\
  GET (PUT zero_memory 4128 4099) 4128 = 4099.
Proof.
  apply (tag_round_trip zero_memory 4128 4032 ALLOC 4099);
    vm_compute; try reflexivity; split; congruence.
Defined.

Lemma GET_SIZE_PUT_apart m p v q :
  q + 8 <= p \/ p + 8 <= q -> GET_SIZE (PUT m p v) q = GET_SIZE m q.
Proof. intros H. unfold GET_SIZE. rewrite GET_PUT_apart by exact H. reflexivity. Qed.

Lemma GET_STATUS_PUT_apart m p v q :
  q + 8 <= p \/ p + 8 <= q -> GET_STATUS (PUT m p v) q = GET_STATUS m q.
Proof. intros H. unfold GET_STATUS. rewrite GET_PUT_apart by exact H. reflexivity. Qed.

(** ** mm_init *)

Lemma ds_sbrk_grows d x :
  ds_break d + x <= ds_limit d ->
  ds_sbrk d x =
    (match ds_convention d with
     | OldBreak => ds_break d
     | NewBreak => ds_break d + x
     end,
     mk_dataseg (ds_start d) (ds_break d + x) (ds_limit d) (ds_pagesize d)
                (ds_convention d)).
Proof.
  intros H. unfold ds_sbrk.
  replace (ds_break d + x <=? ds_limit d) with true
    by (symmetry; apply Z.leb_le; exact H).
  reflexivity.
Qed.

Lemma ds_sbrk_refuses d x :
  ds_limit d < ds_break d + x -> ds_sbrk d x = (SBRK_FAILED, d).
Proof.
  intros H. unfold ds_sbrk.
  replace (ds_break d + x <=? ds_limit d) with false
    by (symmetry; apply Z.leb_gt; exact H).
  reflexivity.
Qed.

(** The current end of a usable data segment is never the error value. *)
Lemma ds_sbrk_0 d :
  ds_ok d -> ds_sbrk d 0 = (ds_break d, d) /\ ds_break d <> SBRK_FAILED.
Proof.
  intros (H0 & H1 & H2 & H3). split; [|lia].
  rewrite ds_sbrk_grows by lia. rewrite Z.add_0_r.
  destruct d as [s b l pg c]. cbn. destruct c; reflexivity.
Qed.

(** The state mm_init builds when the first chunk is obtained. *)
Lemma mm_init_shape (ap : AllocationPolicy) (st : mm_state) :
  ds_ok (ds st) ->
  ds_start (ds st) <> NULL ->
  ds_break (ds st) = ds_start (ds st) ->
  ds_pagesize (ds st) <> 0 ->
  ds_start (ds st) + CHUNKSIZE <= ds_limit (ds st) ->
  let s := ds_start (ds st) in
  let hs := BS * (s / BS + 1) in
  let he := BS * ((s + CHUNKSIZE - 1) / BS) in
  mm_init ap st =
    Ret (mk_state
           (mk_dataseg s (s + CHUNKSIZE) (ds_limit (ds st)) (ds_pagesize (ds st))
                       (ds_convention (ds st)))
           (PUT (PUT (PUT (PUT (mem st) (hs - 8) (PACK 0 ALLOC)) he (PACK 0 ALLOC))
                     hs (PACK (he - hs) FREE))
                (he - 8) (PACK (he - hs) FREE))
           s (s + CHUNKSIZE) hs he (ds_pagesize (ds st)) (Some ap) true
           (mm_loglevel st) (nf_ptr st))
  /\ s < hs <= s + BS /\ s + CHUNKSIZE - BS <= he < s + CHUNKSIZE
  /\ hs mod BS = 0 /\ he mod BS = 0.
Proof.
  intros Hok Hs Hb Hp Hl s hs he.
  pose proof Hok as (H0 & H1 & H2 & H3).
  unfold NULL in Hs. unfold SBRK_FAILED in H3. rewrite WORD_MOD_eq in H3.
  subst s. set (s := ds_start (ds st)) in *.
  assert (Hc : CHUNKSIZE = 4096) by reflexivity.
  assert (Hr1 : 0 <= s + BS < WORD_MOD) by (unfold BS; rewrite WORD_MOD_eq in *; lia).
  assert (Hr2 : 0 <= s + CHUNKSIZE - 1 < WORD_MOD) by (rewrite WORD_MOD_eq in *; lia).
  destruct (round_below _ Hr1) as [Ea Ba]. destruct (round_below _ Hr2) as [Eb Bb].
  assert (Ehs : BS * ((s + BS) / BS) = hs).
  { subst hs. unfold BS. replace (s + 32) with (s + 1 * 32) by lia.
    rewrite Z.div_add by lia. reflexivity. }
  rewrite Ehs in Ea, Ba. fold he in Eb, Bb.
  assert (Bhs : s < hs <= s + BS) by (unfold BS in *; lia).
  assert (Bhe : s + CHUNKSIZE - BS <= he < s + CHUNKSIZE) by (unfold BS in *; lia).
  split; [|split; [exact Bhs | split; [exact Bhe | split]]].
  - unfold mm_init, ds_heap_stat, ds_getpagesize. fold s.
    rewrite Hb, Z.eqb_refl. cbn [negb].
    replace (s =? NULL) with false by (symmetry; apply Z.eqb_neq; exact Hs).
    replace (ds_pagesize (ds st) =? 0) with false
      by (symmetry; apply Z.eqb_neq; exact Hp).
    rewrite (ds_sbrk_grows (ds st) CHUNKSIZE) by (rewrite Hb; exact Hl).
    rewrite Hb.
    match goal with
    | |- context [ds_sbrk ?d 0] =>
        assert (Hok1 : ds_ok d)
          by (unfold ds_ok, SBRK_FAILED; cbn [ds_start ds_break ds_limit];
              rewrite WORD_MOD_eq; lia);
        destruct (ds_sbrk_0 d Hok1) as [E0 N0]; rewrite E0
    end.
    cbn [ds_break] in N0 |- *.
    replace (s + CHUNKSIZE =? SBRK_FAILED) with false
      by (symmetry; apply Z.eqb_neq; exact N0).
    rewrite (wrap_small (s + BS)) by exact Hr1.
    rewrite (wrap_small (s + CHUNKSIZE - 1)) by exact Hr2.
    rewrite Ea, Eb.
    assert (Ew : wrap (he - hs) = he - hs)
      by (apply wrap_small; unfold BS in *; rewrite WORD_MOD_eq in *; lia).
    rewrite Ew. unfold PREV_PTR, stride, TYPE_SIZE. rewrite !Z.mul_1_l.
    rewrite (wrap_small (hs - 8)) by (unfold BS in *; rewrite WORD_MOD_eq in *; lia).
    rewrite (wrap_small (he - 8)) by (unfold BS in *; rewrite WORD_MOD_eq in *; lia).
    reflexivity.
  - subst hs. rewrite Z.mul_comm. apply Z.mod_mul. unfold BS. lia.
  - subst he. rewrite Z.mul_comm. apply Z.mod_mul. unfold BS. lia.
Qed.

(** X2.  mm_init must be called once: after a call that returned, any
    further call ends in PANIC "Heap not clean.", whatever the policy. *)
Theorem second_init_is_fatal (ap ap' : AllocationPolicy) (st st' : mm_state) :
  ds_ok (ds st) ->
  ds_start (ds st) <> NULL ->
  ds_break (ds st) = ds_start (ds st) ->
  ds_pagesize (ds st) <> 0 ->
  ds_start (ds st) + CHUNKSIZE <= ds_limit (ds st) ->
  mm_init ap st = Ret st' ->
  mm_init ap' st' = Panic "mm_init" "Heap not clean.".
Proof.
  intros Hok Hs Hb Hp Hl Hi.
  destruct (mm_init_shape ap st Hok Hs Hb Hp Hl) as [E _].
  rewrite E in Hi. injection Hi as <-.
  unfold mm_init, ds_heap_stat. cbn [ds ds_start ds_break].
  replace (ds_start (ds st) =? NULL) with false
    by (symmetry; apply Z.eqb_neq; exact Hs).
  replace (ds_start (ds st) =? ds_start (ds st) + CHUNKSIZE) with false
    by (symmetry; apply Z.eqb_neq; change CHUNKSIZE with 4096; lia).
  reflexivity.
Qed.

Lemma second_init_is_fatal_witness :
  mm_init ap_BestFit (fresh ap_FirstFit OldBreak) = Panic "mm_init" "Heap not clean.".
Proof.
  apply (second_init_is_fatal ap_FirstFit ap_BestFit (boot (region OldBreak) zero_memory)).
  - repeat split; vm_compute; congruence.
  - vm_compute; congruence.
  - reflexivity.
  - vm_compute; congruence.
  - vm_compute; congruence.
  - apply returned_init. vm_compute. reflexivity.
Defined.




Lemma mm_init_layout (ap : AllocationPolicy) (st st' : mm_state) :
  ds_ok (ds st) ->
  ds_start (ds st) <> NULL ->
  ds_break (ds st) = ds_start (ds st) ->
  ds_pagesize (ds st) <> 0 ->
  ds_start (ds st) + CHUNKSIZE <= ds_limit (ds st) ->
  mm_init ap st = Ret st' ->
  tiled (mem st') (heap_start st') [(HEAP_SIZE st', FREE)] (heap_end st') /\
  CHUNKSIZE - 2 * BS <= HEAP_SIZE st' <= CHUNKSIZE - BS /\
  GET (mem st') (heap_start st' - TYPE_SIZE) = PACK 0 ALLOC /\
  GET (mem st') (heap_end st') = PACK 0 ALLOC /\
  get_free_block st' = Some ap /\
  mm_initialized st' = true /\
  nf_ptr st' = nf_ptr st.
Proof.
  intros Hok Hs Hb Hp Hl Hi.
  pose proof (mm_init_shape ap st Hok Hs Hb Hp Hl) as Hshape. cbv zeta in Hshape.
  pose proof Hok as (H0 & H1 & H2 & H3).
  unfold SBRK_FAILED in H3. rewrite WORD_MOD_eq in H3.
  set (s := ds_start (ds st)) in *.
  set (hs := BS * (s / BS + 1)) in *.
  set (he := BS * ((s + CHUNKSIZE - 1) / BS)) in *.
  clearbody hs he.
  destruct Hshape as (E & Bhs & Bhe & Mhs & Mhe).
  rewrite E in Hi. injection Hi as <-. clear E.
  unfold HEAP_SIZE.
  cbn [mem heap_start heap_end get_free_block mm_initialized nf_ptr].
  change CHUNKSIZE with 4096 in *. unfold BS in Bhs, Bhe, Mhs, Mhe |- *.
  unfold TYPE_SIZE.
  assert (Ew : wrap (he - hs) = he - hs)
    by (apply wrap_small; rewrite WORD_MOD_eq; lia).
  rewrite Ew.
  assert (M8 : (he - hs) mod 8 = 0).
  { apply mod32_mod8. rewrite Zminus_mod, Mhs, Mhe. reflexivity. }
  assert (Hr : 0 <= he - hs < WORD_MOD) by (rewrite WORD_MOD_eq; lia).
  assert (Hf : 0 <= FREE < 8) by (unfold FREE; lia).
  pose proof (Z.div_mod hs 32 ltac:(lia)) as Dhs. rewrite Mhs in Dhs.
  pose proof (Z.div_mod he 32 ltac:(lia)) as Dhe. rewrite Mhe in Dhe.
  split; [|split; [lia | split; [|split; [|repeat split]]]].
  - cbn [tiled]. unfold TYPE_SIZE.
    replace (hs + (he - hs) - 8) with (he - 8) by lia.
    split; [lia|]. split; [lia|].
    split; [|split; [|split; [|split; [|lia]]]].
    + rewrite GET_SIZE_PUT_apart by lia. apply GET_SIZE_PUT; assumption.
    + rewrite GET_STATUS_PUT_apart by lia. apply GET_STATUS_PUT; assumption.
    + apply GET_SIZE_PUT; assumption.
    + apply GET_STATUS_PUT; assumption.
  - rewrite !GET_PUT_apart by lia. rewrite GET_PUT_same. apply wrap_small.
    vm_compute. split; congruence.
  - rewrite !GET_PUT_apart by lia. rewrite GET_PUT_same. apply wrap_small.
    vm_compute. split; congruence.
Qed.

(** The size of the initial block is a multiple of 32, and the exact
    provider of the model has moved the end by CHUNKSIZE. *)
Lemma mm_init_heap_size (ap : AllocationPolicy) (st st' : mm_state) :
  ds_ok (ds st) ->
  ds_start (ds st) <> NULL ->
  ds_break (ds st) = ds_start (ds st) ->
  ds_pagesize (ds st) <> 0 ->
  ds_start (ds st) + CHUNKSIZE <= ds_limit (ds st) ->
  mm_init ap st = Ret st' ->
  HEAP_SIZE st' mod BS = 0 /\ ds_heap_brk st' = ds_heap_start st' + CHUNKSIZE.
Proof.
  intros Hok Hs Hb Hp Hl Hi.
  pose proof (mm_init_shape ap st Hok Hs Hb Hp Hl) as Hshape. cbv zeta in Hshape.
  pose proof Hok as (H0 & H1 & H2 & H3).
  unfold SBRK_FAILED in H3. rewrite WORD_MOD_eq in H3.
  set (s := ds_start (ds st)) in *.
  set (hs := BS * (s / BS + 1)) in *.
  set (he := BS * ((s + CHUNKSIZE - 1) / BS)) in *.
  clearbody hs he.
  destruct Hshape as (E & Bhs & Bhe & Mhs & Mhe).
  rewrite E in Hi. injection Hi as <-. clear E.
  unfold HEAP_SIZE. cbn [heap_start heap_end ds_heap_brk ds_heap_start].
  change CHUNKSIZE with 4096 in *. unfold BS in Bhs, Bhe, Mhs, Mhe |- *.
  rewrite wrap_small by (rewrite WORD_MOD_eq; lia).
  split; [|reflexivity].
  rewrite Zminus_mod, Mhs, Mhe. reflexivity.
Qed.

(** X4.  The heap mm_init leaves behind.  When the first chunk is obtained
    (on any memory content), the heap consists of exactly one free block
    from heap_start to heap_end, header and footer tagged with its size
    HEAP_SIZE; that size is a multiple of 32 and falls short of the extent
    of the data segment, from the recorded start to the recorded end, by
    more than 0 and at most 64 bytes; the words just below heap_start and
    at heap_end are sentinels of size 0 marked allocated; the policy is
    recorded, the manager is initialized, and the next-fit cursor is left
    as it was. *)
Theorem init_heap_layout (ap : AllocationPolicy) (st st' : mm_state) :
  ds_ok (ds st) ->
  ds_start (ds st) <> NULL ->
  ds_break (ds st) = ds_start (ds st) ->
  ds_pagesize (ds st) <> 0 ->
  ds_start (ds st) + CHUNKSIZE <= ds_limit (ds st) ->
  mm_init ap st = Ret st' ->
  tiled (mem st') (heap_start st') [(HEAP_SIZE st', FREE)] (heap_end st') /\
  HEAP_SIZE st' mod BS = 0 /\
  ds_heap_brk st' - ds_heap_start st' - 2 * BS <= HEAP_SIZE st'
    < ds_heap_brk st' - ds_heap_start st' /\
  GET (mem st') (heap_start st' - TYPE_SIZE) = PACK 0 ALLOC /\
  GET (mem st') (heap_end st') = PACK 0 ALLOC /\
  get_free_block st' = Some ap /\
  mm_initialized st' = true /\
  nf_ptr st' = nf_ptr st.
Proof.
  intros Hok Hs Hb Hp Hl Hi.
  destruct (mm_init_layout ap st st' Hok Hs Hb Hp Hl Hi)
    as (Ht & Hsz & Hs1 & Hs2 & Hg & Hin & Hnf).
  destruct (mm_init_heap_size ap st st' Hok Hs Hb Hp Hl Hi) as [Hm Hbrk].
  split; [exact Ht|]. split; [exact Hm|].
  split; [|repeat split; assumption].
  rewrite Hbrk. change CHUNKSIZE with 4096 in *. unfold BS in *. lia.
Qed.

Lemma init_heap_layout_witness :
  tiled (mem (fresh ap_NextFit OldBreak)) (heap_start (fresh ap_NextFit OldBreak))
        [(HEAP_SIZE (fresh ap_NextFit OldBreak), FREE)]
        (heap_end (fresh ap_NextFit OldBreak)) /\
  HEAP_SIZE (fresh ap_NextFit OldBreak) mod BS = 0 /\
  ds_heap_brk (fresh ap_NextFit OldBreak) - ds_heap_start (fresh ap_NextFit OldBreak)
    - 2 * BS
    <= HEAP_SIZE (fresh ap_NextFit OldBreak)
    < ds_heap_brk (fresh ap_NextFit OldBreak) - ds_heap_start (fresh ap_NextFit OldBreak) /\
  GET (mem (fresh ap_NextFit OldBreak)) (heap_start (fresh ap_NextFit OldBreak) - TYPE_SIZE)
    = PACK 0 ALLOC /\
  GET (mem (fresh ap_NextFit OldBreak)) (heap_end (fresh ap_NextFit OldBreak))
    = PACK 0 ALLOC /\
  get_free_block (fresh ap_NextFit OldBreak) = Some ap_NextFit /\
  mm_initialized (fresh ap_NextFit OldBreak) = true /\
  nf_ptr (fresh ap_NextFit OldBreak) = nf_ptr (boot (region OldBreak) zero_memory).
Proof.
  apply (init_heap_layout ap_NextFit (boot (region OldBreak) zero_memory)).
  - repeat split; vm_compute; congruence.
  - vm_compute; congruence.
  - reflexivity.
  - vm_compute; congruence.
  - vm_compute; congruence.
  - apply returned_init. vm_compute. reflexivity.
Defined.

(** ** mm_check *)

Lemma check_loop_step f m he p errors printed :
  p < he ->
  check_loop (S f) m he p errors printed =
    if GET_SIZE m p =? 0
    then Ret (wrap (p + GET_SIZE m p),
              errors + (if footer_differs m p (GET_SIZE m p) (GET_STATUS m p)
                        then 1 else 0),
              printed ++ [(p, GET_SIZE m p, GET_STATUS m p)])
    else check_loop f m he (wrap (p + GET_SIZE m p))
           (errors + (if footer_differs m p (GET_SIZE m p) (GET_STATUS m p)
                      then 1 else 0))
           (printed ++ [(p, GET_SIZE m p, GET_STATUS m p)]).
Proof.
  intros Hlt. cbn [check_loop].
  replace (p <? he) with true by (symmetry; apply Z.ltb_lt; exact Hlt).
  cbv zeta. unfold footer_differs, GET_SIZE, GET_STATUS.
  destruct (negb (SIZE (GET m p) =? SIZE (GET m (wrap (wrap (p + SIZE (GET m p)) - TYPE_SIZE))))
            || negb (STATUS (GET m p)
                     =? STATUS (GET m (wrap (wrap (p + SIZE (GET m p)) - TYPE_SIZE)))));
    rewrite ?Z.add_0_r; reflexivity.
Qed.

Lemma check_loop_walk m he bs :
  forall fuel p errors printed,
    walk m p bs he -> Forall (fun b => fst b <> 0) bs ->
    (List.length bs < fuel)%nat ->
    check_loop fuel m he p errors printed =
      Ret (walk_end p bs, errors + count_errors m p bs, printed ++ listing p bs).
Proof.
  induction bs as [|[sz stt] rest IH]; intros fuel p errors printed Hw Hnz Hf.
  - destruct fuel as [|f]; [inversion Hf|].
    cbn [walk] in Hw. cbn [check_loop walk_end count_errors listing].
    replace (p <? he) with false by (symmetry; apply Z.ltb_ge; exact Hw).
    rewrite Z.add_0_r, app_nil_r. reflexivity.
  - destruct fuel as [|f]; [inversion Hf|].
    cbn [walk] in Hw. destruct Hw as (Hlt & Hsz & Hst & Hrest).
    pose proof (Forall_inv Hnz) as Hz. pose proof (Forall_inv_tail Hnz) as Hnz'.
    cbn [fst] in Hz.
    rewrite check_loop_step by exact Hlt. rewrite Hsz, Hst.
    replace (sz =? 0) with false by (symmetry; apply Z.eqb_neq; exact Hz).
    rewrite (IH f _ _ _ Hrest Hnz') by (cbn [List.length] in Hf; lia).
    cbn [walk_end count_errors listing fst].
    rewrite <- app_assoc, Z.add_assoc. reflexivity.
Qed.

(** X6.  What mm_check reports.  On a heap whose headers lead from
    heap_start to heap_end through blocks of non-zero size, mm_check
    returns; it lists every block with its address, size and status,
    counts exactly the blocks whose footer word differs from the header in
    size or status, and prints "Block structure coherent." exactly when
    the traversal ended at heap_end with no such block. *)
Theorem check_reports_mismatches (fuel : nat) (st : mm_state) (bs : list (Z * Z)) :
  mm_initialized st = true ->
  walk (mem st) (heap_start st) bs (heap_end st) ->
  Forall (fun b => fst b <> 0) bs ->
  (List.length bs < fuel)%nat ->
  mm_check fuel st =
    Ret (mk_report (listing (heap_start st) bs)
                   (count_errors (mem st) (heap_start st) bs)
                   (walk_end (heap_start st) bs)
                   ((walk_end (heap_start st) bs =? heap_end st)
                    && (count_errors (mem st) (heap_start st) bs =? 0))).
Proof.
  intros Hi Hw Hnz Hf. unfold mm_check. rewrite Hi. cbn [negb].
  rewrite (check_loop_walk _ _ bs fuel _ 0 [] Hw Hnz Hf). reflexivity.
Qed.

(** The heap with three allocated blocks and the free remainder. *)
Lemma check_reports_mismatches_witness :
  mm_check 5 (three ap_FirstFit) =
    Ret (mk_report (listing (heap_start (three ap_FirstFit))
                            [(64, 1); (64, 1); (64, 1); (3840, 0)])
                   (count_errors (mem (three ap_FirstFit)) (heap_start (three ap_FirstFit))
                                 [(64, 1); (64, 1); (64, 1); (3840, 0)])
                   (walk_end (heap_start (three ap_FirstFit))
                             [(64, 1); (64, 1); (64, 1); (3840, 0)])
                   ((walk_end (heap_start (three ap_FirstFit))
                              [(64, 1); (64, 1); (64, 1); (3840, 0)]
                     =? heap_end (three ap_FirstFit))
                    && (count_errors (mem (three ap_FirstFit))
                                     (heap_start (three ap_FirstFit))
                                     [(64, 1); (64, 1); (64, 1); (3840, 0)] =? 0))).
Proof.
  apply (check_reports_mismatches 5 (three ap_FirstFit)
           [(64, 1); (64, 1); (64, 1); (3840, 0)]).
  - vm_compute. reflexivity.
  - cbn [walk]. repeat match goal with |- _ /\ _ => split end; vm_compute; congruence.
  - repeat constructor; cbn [fst]; lia.
  - cbn [List.length]. lia.
Defined.

Lemma tiled_size_pos m p sz stt rest e :
  tiled m p ((sz, stt) :: rest) e -> 8 <= sz.
Proof.
  cbn [tiled]. intros (Hpos & _ & Hsz & _).
  pose proof (GET_SIZE_mod8 m p) as H8. rewrite Hsz in H8.
  pose proof (Z.div_mod sz 8 ltac:(lia)). lia.
Qed.

Lemma tiled_le m bs e : forall p, tiled m p bs e -> p <= e.
Proof.
  induction bs as [|[sz stt] rest IH]; intros p Ht.
  - cbn [tiled] in Ht. lia.
  - cbn [tiled] in Ht. lia.
Qed.

(** A tiled heap below 2^64 is a walk that ends at [e] with every footer
    in agreement. *)
Lemma tiled_walk m bs e :
  e < WORD_MOD ->
  forall p, 0 <= p -> tiled m p bs e ->
            walk m p bs e /\ walk_end p bs = e /\ count_errors m p bs = 0
            /\ Forall (fun b => fst b <> 0) bs.
Proof.
  intros He. induction bs as [|[sz stt] rest IH]; intros p Hp Ht.
  - cbn [tiled] in Ht. cbn [walk walk_end count_errors].
    repeat split; try lia. constructor.
  - pose proof (tiled_size_pos _ _ _ _ _ _ Ht) as H8.
    cbn [tiled] in Ht. destruct Ht as (Hpos & Hle & Hsz & Hst & Hfs & Hft & Hrest).
    assert (Ew : wrap (p + sz) = p + sz) by (apply wrap_small; lia).
    destruct (IH (p + sz) ltac:(lia) Hrest) as (Hw & Hend & Hc & Hnz).
    cbn [walk walk_end count_errors fst]. rewrite Ew.
    assert (Ef : wrap (p + sz - TYPE_SIZE) = p + sz - TYPE_SIZE)
      by (apply wrap_small; unfold TYPE_SIZE; lia).
    unfold footer_differs. rewrite Ew, Ef, Hfs, Hft, !Z.eqb_refl. cbn [negb orb].
    repeat split; try assumption; try lia.
    constructor; [cbn [fst]; lia | exact Hnz].
Qed.

(** X7.  mm_check accepts a tiled heap: when the blocks from heap_start end
    exactly at heap_end and every footer repeats its header, mm_check
    returns with no error, the traversal stopped at heap_end, and the
    structure reported coherent. *)
Theorem check_accepts_tiled_heap (fuel : nat) (st : mm_state) (bs : list (Z * Z)) :
  mm_initialized st = true ->
  0 <= heap_start st -> heap_end st < WORD_MOD ->
  tiled (mem st) (heap_start st) bs (heap_end st) ->
  (List.length bs < fuel)%nat ->
  mm_check fuel st = Ret (mk_report (listing (heap_start st) bs) 0 (heap_end st) true).
Proof.
  intros Hi H0 He Ht Hf.
  destruct (tiled_walk _ bs _ He _ H0 Ht) as (Hw & Hend & Hc & Hnz).
  unfold mm_check. rewrite Hi. cbn [negb].
  rewrite (check_loop_walk _ _ bs fuel _ 0 [] Hw Hnz Hf). cbn [bind app].
  rewrite Hend, Hc, Z.eqb_refl. reflexivity.
Qed.

Lemma check_accepts_tiled_heap_witness :
  mm_check 5 (three ap_FirstFit)
  = Ret (mk_report (listing (heap_start (three ap_FirstFit))
                            [(64, 1); (64, 1); (64, 1); (3840, 0)])
                   0 (heap_end (three ap_FirstFit)) true).
Proof.
  apply (check_accepts_tiled_heap 5 (three ap_FirstFit)
           [(64, 1); (64, 1); (64, 1); (3840, 0)]).
  - vm_compute. reflexivity.
  - vm_compute. congruence.
  - vm_compute. reflexivity.
  - cbn [tiled]. repeat match goal with |- _ /\ _ => split end; vm_compute; congruence.
  - cbn [List.length]. lia.
Defined.

Lemma check_loop_reaches m he q pre :
  q < he -> 0 <= q < WORD_MOD -> GET_SIZE m q = 0 ->
  forall fuel p errors printed,
    reaches m p pre q he -> Forall (fun b => fst b <> 0) pre ->
    (List.length pre < fuel)%nat ->
    exists errors' printed',
      check_loop fuel m he p errors printed
      = Ret (q, errors', printed' ++ [(q, 0, GET_STATUS m q)]).
Proof.
  intros Hq Hr Hz. induction pre as [|[sz stt] rest IH];
    intros fuel p errors printed Hre Hnz Hf.
  - destruct fuel as [|f]; [inversion Hf|].
    cbn [reaches] in Hre. subst p.
    rewrite check_loop_step by exact Hq. rewrite Hz, Z.eqb_refl, Z.add_0_r.
    rewrite (wrap_small q Hr). eexists. eexists. reflexivity.
  - destruct fuel as [|f]; [inversion Hf|].
    cbn [reaches] in Hre. destruct Hre as (Hlt & Hsz & Hst & Hrest).
    pose proof (Forall_inv Hnz) as Hnz0. pose proof (Forall_inv_tail Hnz) as Hnz'.
    cbn [fst] in Hnz0.
    rewrite check_loop_step by exact Hlt. rewrite Hsz, Hst.
    replace (sz =? 0) with false by (symmetry; apply Z.eqb_neq; exact Hnz0).
    apply IH; [exact Hrest | exact Hnz' | cbn [List.length] in Hf; lia].
Qed.

(** X8.  mm_check and a tag of size 0.  When the scan from heap_start
    comes to a word below heap_end whose size field is 0, mm_check lists
    it, stops there and returns: it does not loop, and it never reports
    the structure coherent. *)
Theorem check_stops_at_size_zero (fuel : nat) (st : mm_state)
        (pre : list (Z * Z)) (q : Z) :
  mm_initialized st = true ->
  reaches (mem st) (heap_start st) pre q (heap_end st) ->
  Forall (fun b => fst b <> 0) pre ->
  q < heap_end st -> 0 <= q < WORD_MOD ->
  GET_SIZE (mem st) q = 0 ->
  (List.length pre < fuel)%nat ->
  exists errors printed,
    mm_check fuel st
    = Ret (mk_report (printed ++ [(q, 0, GET_STATUS (mem st) q)]) errors q false).
Proof.
  intros Hi Hre Hnz Hq Hr Hz Hf.
  destruct (check_loop_reaches _ _ q pre Hq Hr Hz fuel _ 0 [] Hre Hnz Hf)
    as (errors & printed & E).
  exists errors, printed. unfold mm_check. rewrite Hi. cbn [negb].
  rewrite E. cbn [bind].
  replace (q =? heap_end st) with false by (symmetry; apply Z.eqb_neq; lia).
  reflexivity.
Qed.

Lemma check_stops_at_size_zero_witness :
  exists errors printed,
    mm_check 2 (grown ap_FirstFit OldBreak)
    = Ret (mk_report
             (printed ++ [(8160, 0, GET_STATUS (mem (grown ap_FirstFit OldBreak)) 8160)])
             errors 8160 false).
Proof.
  apply (check_stops_at_size_zero 2 (grown ap_FirstFit OldBreak) [(4032, 0)] 8160).
  - vm_compute. reflexivity.
  - cbn [reaches]. repeat match goal with |- _ /\ _ => split end; vm_compute; congruence.
  - repeat constructor; cbn [fst]; lia.
  - vm_compute. reflexivity.
  - vm_compute. split; congruence.
  - vm_compute. reflexivity.
  - cbn [List.length]. lia.
Defined.

(** ** The choice of first fit and of best fit *)

Lemma fits_iff size b :
  fits size b = true <-> size <= fst b /\ snd b <> ALLOC.
Proof.
  unfold fits. rewrite negb_true_iff, orb_false_iff, Z.gtb_ltb, Z.ltb_ge, Z.eqb_neq.
  reflexivity.
Qed.

Lemma fits_false_iff size b :
  fits size b = false <-> fst b < size \/ snd b = ALLOC.
Proof.
  unfold fits. rewrite negb_false_iff, orb_true_iff, Z.gtb_ltb, Z.ltb_lt, Z.eqb_eq.
  reflexivity.
Qed.

Lemma first_fit_split size bs :
  forall p,
    match first_fit size p bs with
    | Some a =>
        exists pre b post,
          bs = pre ++ b :: post
          /\ Forall (fun c => fst c < size \/ snd c = ALLOC) pre
          /\ (size <= fst b /\ snd b <> ALLOC)
          /\ a = walk_end p pre
    | None => Forall (fun c => fst c < size \/ snd c = ALLOC) bs
    end.
Proof.
  induction bs as [|b rest IH]; intros p.
  - constructor.
  - cbn [first_fit]. destruct (fits size b) eqn:Ef.
    + apply fits_iff in Ef. exists [], b, rest.
      split; [reflexivity|]. split; [apply Forall_nil|]. split; [exact Ef | reflexivity].
    + specialize (IH (wrap (p + fst b))).
      apply fits_false_iff in Ef.
      destruct (first_fit size (wrap (p + fst b)) rest) as [a|].
      * destruct IH as (pre & c & post & -> & Hpre & Hc & ->).
        exists (b :: pre), c, post.
        split; [reflexivity|]. split; [constructor; assumption|].
        split; [exact Hc | reflexivity].
      * constructor; assumption.
Qed.

(** X9.  The choice of first fit.  On a heap whose headers lead from
    heap_start to heap_end, ff_get_free_block returns and leaves the state
    alone.  Either some block is large enough and not marked allocated:
    then the payload pointer of the first such block is returned, every
    block before it being too small or allocated.  Or every block is too
    small or allocated (as the sentinels are): then NULL is returned. *)
Theorem first_fit_choice (fuel : nat) (size : Z) (st : mm_state) (bs : list (Z * Z)) :
  mm_initialized st = true ->
  walk (mem st) (heap_start st) bs (heap_end st) ->
  (List.length bs < fuel)%nat ->
  (exists pre b post,
      bs = pre ++ b :: post
      /\ Forall (fun c => fst c < size \/ snd c = ALLOC) pre
      /\ (size <= fst b /\ snd b <> ALLOC)
      /\ ff_get_free_block fuel size st
         = Ret (NEXT_PTR void_ptr (walk_end (heap_start st) pre), st))
  \/ (Forall (fun c => fst c < size \/ snd c = ALLOC) bs
      /\ ff_get_free_block fuel size st = Ret (NULL, st)).
Proof.
  intros Hi Hw Hf.
  rewrite (first_fit_scan fuel size st bs Hi Hw Hf).
  pose proof (first_fit_split size bs (heap_start st)) as Hs.
  destruct (first_fit size (heap_start st) bs) as [a|].
  - left. destruct Hs as (pre & b & post & E & Hpre & Hb & ->).
    exists pre, b, post. repeat split; try assumption; apply Hb.
  - right. split; [exact Hs | reflexivity].
Qed.

Lemma first_fit_choice_witness :
  (exists pre b post,
      [(64, 1); (64, 1); (96, 0); (64, 1); (64, 0); (64, 1); (3616, 0)]
      = pre ++ b :: post
      /\ Forall (fun c => fst c < 50 \/ snd c = ALLOC) pre
      /\ (50 <= fst b /\ snd b <> ALLOC)
      /\ ff_get_free_block 8 50 two_holes
         = Ret (NEXT_PTR void_ptr (walk_end (heap_start two_holes) pre), two_holes))
  \/ (Forall (fun c => fst c < 50 \/ snd c = ALLOC)
             [(64, 1); (64, 1); (96, 0); (64, 1); (64, 0); (64, 1); (3616, 0)]
      /\ ff_get_free_block 8 50 two_holes = Ret (NULL, two_holes)).
Proof.
  apply (first_fit_choice 8 50 two_holes
           [(64, 1); (64, 1); (96, 0); (64, 1); (64, 0); (64, 1); (3616, 0)]).
  - vm_compute. reflexivity.
  - cbn [walk]. repeat match goal with |- _ /\ _ => split end; vm_compute; congruence.
  - cbn [List.length]. lia.
Defined.

Lemma layout_in_tiled m bs e :
  forall p a b, tiled m p bs e -> In (a, b) (layout p bs) ->
                e < WORD_MOD -> 0 <= p -> p <= a /\ a + 8 <= e.
Proof.
  induction bs as [|[sz stt] rest IH]; intros p a b Ht Hin He Hp.
  - destruct Hin.
  - pose proof (tiled_size_pos _ _ _ _ _ _ Ht) as H8.
    cbn [tiled] in Ht. destruct Ht as (Hpos & Hle & _ & _ & _ & _ & Hrest).
    cbn [layout fst] in Hin. destruct Hin as [Heq|Hin].
    + injection Heq as <- _. lia.
    + rewrite wrap_small in Hin by lia.
      destruct (IH _ _ _ Hrest Hin He ltac:(lia)). lia.
Qed.

(** X10.  The choice of best fit.  On a tiled heap, bf_get_free_block
    returns and leaves the state alone.  Call a block eligible when it is
    free, at least as large as the request, and smaller than HEAP_SIZE.
    If no block is eligible, NULL is returned.  Otherwise the payload
    pointer of an eligible block is returned that is strictly smaller
    than every eligible block before it and not larger than any eligible
    block after it: the smallest one, the earliest among equals. *)
Theorem best_fit_choice (fuel : nat) (size : Z) (st : mm_state) (bs : list (Z * Z)) :
  mm_initialized st = true ->
  0 < heap_start st -> heap_end st < WORD_MOD ->
  tiled (mem st) (heap_start st) bs (heap_end st) ->
  (List.length bs < fuel)%nat ->
  ((forall a b, In (a, b) (layout (heap_start st) bs) ->
                candidate size (HEAP_SIZE st) b = false)
   /\ bf_get_free_block fuel size st = Ret (NULL, st))
  \/
  (exists pre a b post,
      layout (heap_start st) bs = pre ++ (a, b) :: post
      /\ candidate size (HEAP_SIZE st) b = true
      /\ (forall a' b', In (a', b') pre ->
                        candidate size (HEAP_SIZE st) b' = true -> fst b < fst b')
      /\ (forall a' b', In (a', b') post ->
                        candidate size (HEAP_SIZE st) b' = true -> fst b <= fst b')
      /\ bf_get_free_block fuel size st = Ret (a + TYPE_SIZE, st)).
Proof.
  intros Hi H0 He Ht Hf.
  assert (H0' : 0 <= heap_start st) by lia.
  destruct (tiled_walk _ bs _ He _ H0' Ht) as (Hw & _ & _ & _).
  rewrite (best_fit_scan fuel size st bs Hi Hw Hf).
  destruct (bf_pick_minimal size bs (heap_start st) (HEAP_SIZE st) NULL)
    as [[Hnone Hr] | (pre & b & post & Hl & Hc & Hpre & Hpost)].
  - left. split; [exact Hnone|]. rewrite Hr. reflexivity.
  - right. exists pre, (bf_pick size (heap_start st) bs (HEAP_SIZE st) NULL), b, post.
    split; [exact Hl|]. split; [exact Hc|]. split; [exact Hpre|]. split; [exact Hpost|].
    assert (Hin : In (bf_pick size (heap_start st) bs (HEAP_SIZE st) NULL, b)
                     (layout (heap_start st) bs)).
    { rewrite Hl. apply in_or_app. right. left. reflexivity. }
    destruct (layout_in_tiled _ _ _ _ _ _ Ht Hin He H0') as [Ha1 Ha2].
    set (a := bf_pick size (heap_start st) bs (HEAP_SIZE st) NULL) in *.
    replace (a =? NULL) with false
      by (symmetry; apply Z.eqb_neq; unfold NULL; lia).
    unfold NEXT_PTR, stride. rewrite Z.mul_1_l.
    rewrite wrap_small by (unfold TYPE_SIZE; lia). reflexivity.
Qed.

Lemma best_fit_choice_witness :
  ((forall a b,
       In (a, b) (layout (heap_start two_holes)
                         [(64, 1); (64, 1); (96, 0); (64, 1); (64, 0); (64, 1); (3616, 0)]) ->
       candidate 50 (HEAP_SIZE two_holes) b = false)
   /\ bf_get_free_block 8 50 two_holes = Ret (NULL, two_holes))
  \/
  (exists pre a b post,
      layout (heap_start two_holes)
             [(64, 1); (64, 1); (96, 0); (64, 1); (64, 0); (64, 1); (3616, 0)]
      = pre ++ (a, b) :: post
      /\ candidate 50 (HEAP_SIZE two_holes) b = true
      /\ (forall a' b', In (a', b') pre ->
                        candidate 50 (HEAP_SIZE two_holes) b' = true -> fst b < fst b')
      /\ (forall a' b', In (a', b') post ->
                        candidate 50 (HEAP_SIZE two_holes) b' = true -> fst b <= fst b')
      /\ bf_get_free_block 8 50 two_holes = Ret (a + TYPE_SIZE, two_holes)).
Proof.
  apply (best_fit_choice 8 50 two_holes
           [(64, 1); (64, 1); (96, 0); (64, 1); (64, 0); (64, 1); (3616, 0)]).
  - vm_compute. reflexivity.
  - vm_compute. reflexivity.
  - vm_compute. reflexivity.
  - cbn [tiled]. repeat match goal with |- _ /\ _ => split end; vm_compute; congruence.
  - cbn [List.length]. lia.
Defined.

(** ** Handing out a block *)

Lemma HDRP_NEXT_PTR h :
  0 <= h -> h + 8 < WORD_MOD ->
  NEXT_PTR void_ptr h = h + 8 /\ HDRP void_ptr (h + 8) = h.
Proof.
  intros H0 H1. unfold HDRP, PREV_PTR, NEXT_PTR, stride, TYPE_SIZE.
  rewrite !Z.mul_1_l. split; [apply wrap_small; lia|].
  replace (h + 8 - 8) with h by lia. apply wrap_small. lia.
Qed.

(** The writes of [place] on a block of [bsz] bytes with header at [h]. *)
Lemma place_writes m h asize :
  0 <= h -> h + GET_SIZE m h < WORD_MOD ->
  16 <= asize <= GET_SIZE m h -> asize mod 8 = 0 ->
  place m (h + 8) asize =
    if GET_SIZE m h >? asize then
      PUT (PUT (PUT (PUT m (h + asize) (PACK (GET_SIZE m h - asize) FREE))
                    (h + GET_SIZE m h - 8) (PACK (GET_SIZE m h - asize) FREE))
               h (PACK asize ALLOC))
          (h + asize - 8) (PACK asize ALLOC)
    else PUT (PUT m h (PACK asize ALLOC)) (h + asize - 8) (PACK asize ALLOC).
Proof.
  intros H0 Hw Ha H8.
  set (bsz := GET_SIZE m h) in *.
  destruct (HDRP_NEXT_PTR h H0 ltac:(lia)) as [_ Eh].
  assert (Hal : 0 <= ALLOC < 8) by (unfold ALLOC; lia).
  assert (Hfr : 0 <= FREE < 8) by (unfold FREE; lia).
  assert (Har : 0 <= asize < WORD_MOD) by lia.
  assert (Ef : forall m', GET_SIZE m' h = asize ->
                          FTRP void_ptr m' (h + 8) = h + asize - 8).
  { intros m' E. unfold FTRP. rewrite Eh, E. unfold PREV_PTR, stride, TYPE_SIZE.
    rewrite !Z.mul_1_l. rewrite (wrap_small (h + asize)) by lia.
    apply wrap_small. lia. }
  unfold place. rewrite Eh. fold bsz.
  destruct (bsz >? asize) eqn:Eg.
  - apply Z.gtb_lt in Eg.
    rewrite (wrap_small (h + asize)) by lia.
    rewrite (wrap_small (bsz - asize)) by lia.
    assert (E1 : GET_SIZE (PUT m (h + asize) (PACK (bsz - asize) FREE)) h = bsz)
      by (rewrite GET_SIZE_PUT_apart by lia; reflexivity).
    rewrite E1. rewrite (wrap_small (bsz - asize)) by lia.
    assert (Ef1 : FTRP void_ptr (PUT m (h + asize) (PACK (bsz - asize) FREE)) (h + 8)
                  = h + bsz - 8).
    { unfold FTRP. rewrite Eh, E1. unfold PREV_PTR, stride, TYPE_SIZE.
      rewrite !Z.mul_1_l. rewrite (wrap_small (h + bsz)) by lia.
      apply wrap_small. lia. }
    rewrite Ef1. rewrite Ef by (apply GET_SIZE_PUT; assumption). reflexivity.
  - rewrite Ef by (apply GET_SIZE_PUT; assumption). reflexivity.
Qed.

(** [place] touches nothing outside the block. *)
Lemma place_frame m h asize q :
  0 <= h -> h + GET_SIZE m h < WORD_MOD ->
  16 <= asize <= GET_SIZE m h -> asize mod 8 = 0 ->
  q + 8 <= h \/ h + GET_SIZE m h <= q ->
  GET (place m (h + 8) asize) q = GET m q.
Proof.
  intros H0 Hw Ha H8 Hq. rewrite place_writes by assumption.
  pose proof (GET_SIZE_mod8 m h) as Hb8.
  pose proof (Z.div_mod (GET_SIZE m h) 8 ltac:(lia)) as D1.
  pose proof (Z.div_mod asize 8 ltac:(lia)) as D2.
  destruct (GET_SIZE m h >? asize) eqn:Eg.
  - apply Z.gtb_lt in Eg. rewrite !GET_PUT_apart by lia. reflexivity.
  - rewrite !GET_PUT_apart by lia. reflexivity.
Qed.

(** The tags [place] leaves in the block. *)
Lemma place_tags_in_block m h asize :
  0 <= h -> h + GET_SIZE m h < WORD_MOD ->
  16 <= asize <= GET_SIZE m h -> asize mod 8 = 0 ->
  let m' := place m (h + 8) asize in
  GET_SIZE m' h = asize /\ GET_STATUS m' h = ALLOC
  /\ GET_SIZE m' (h + asize - 8) = asize /\ GET_STATUS m' (h + asize - 8) = ALLOC
  /\ (asize < GET_SIZE m h ->
      GET_SIZE m' (h + asize) = GET_SIZE m h - asize
      /\ GET_STATUS m' (h + asize) = FREE
      /\ GET_SIZE m' (h + GET_SIZE m h - 8) = GET_SIZE m h - asize
      /\ GET_STATUS m' (h + GET_SIZE m h - 8) = FREE).
Proof.
  intros H0 Hw Ha H8 m'. subst m'. rewrite place_writes by assumption.
  assert (Hal : 0 <= ALLOC < 8) by (unfold ALLOC; lia).
  assert (Hfr : 0 <= FREE < 8) by (unfold FREE; lia).
  assert (Har : 0 <= asize < WORD_MOD) by lia.
  pose proof (GET_SIZE_mod8 m h) as Hb8.
  set (bsz := GET_SIZE m h) in *.
  destruct (bsz >? asize) eqn:Eg.
  - apply Z.gtb_lt in Eg.
    assert (Hr8 : (bsz - asize) mod 8 = 0).
    { rewrite Zminus_mod, Hb8, H8. reflexivity. }
    assert (Hrr : 0 <= bsz - asize < WORD_MOD) by lia.
    pose proof (Z.div_mod (bsz - asize) 8 ltac:(lia)) as Dr. rewrite Hr8 in Dr.
    assert (Hge : 8 <= bsz - asize) by lia.
    split; [|split; [|split; [|split; [|intros _; split; [|split; [|split]]]]]].
    + rewrite GET_SIZE_PUT_apart by lia. apply GET_SIZE_PUT; assumption.
    + rewrite GET_STATUS_PUT_apart by lia. apply GET_STATUS_PUT; assumption.
    + apply GET_SIZE_PUT; assumption.
    + apply GET_STATUS_PUT; assumption.
    + rewrite !GET_SIZE_PUT_apart by lia.
      destruct (Z.eq_dec (bsz - asize) 8) as [E8|N8].
      * replace (h + bsz - 8) with (h + asize) by lia. apply GET_SIZE_PUT; assumption.
      * rewrite GET_SIZE_PUT_apart by lia. apply GET_SIZE_PUT; assumption.
    + rewrite !GET_STATUS_PUT_apart by lia.
      destruct (Z.eq_dec (bsz - asize) 8) as [E8|N8].
      * replace (h + bsz - 8) with (h + asize) by lia. apply GET_STATUS_PUT; assumption.
      * rewrite GET_STATUS_PUT_apart by lia. apply GET_STATUS_PUT; assumption.
    + rewrite !GET_SIZE_PUT_apart by lia. apply GET_SIZE_PUT; assumption.
    + rewrite !GET_STATUS_PUT_apart by lia. apply GET_STATUS_PUT; assumption.
  - rewrite Z.gtb_ltb in Eg. apply Z.ltb_ge in Eg.
    split; [|split; [|split; [|split; [|intros Hlt; lia]]]].
    + rewrite GET_SIZE_PUT_apart by lia. apply GET_SIZE_PUT; assumption.
    + rewrite GET_STATUS_PUT_apart by lia. apply GET_STATUS_PUT; assumption.
    + apply GET_SIZE_PUT; assumption.
    + apply GET_STATUS_PUT; assumption.
Qed.

Lemma tiled_ext m m' bs e :
  forall p, tiled m p bs e ->
            (forall q, p <= q -> q + 8 <= e -> GET m' q = GET m q) ->
            tiled m' p bs e.
Proof.
  induction bs as [|[sz stt] rest IH]; intros p Ht Hext.
  - exact Ht.
  - pose proof (tiled_size_pos _ _ _ _ _ _ Ht) as H8.
    cbn [tiled] in Ht |- *. destruct Ht as (Hpos & Hle & Hsz & Hst & Hfs & Hft & Hrest).
    unfold GET_SIZE, GET_STATUS, TYPE_SIZE in *.
    rewrite !Hext by lia.
    repeat split; try assumption.
    apply IH; [exact Hrest|]. intros q Hq1 Hq2. apply Hext; lia.
Qed.

Lemma layout_tag m bs e :
  forall p a b, tiled m p bs e -> In (a, b) (layout p bs) ->
                e < WORD_MOD -> 0 <= p ->
                p <= a /\ GET_SIZE m a = fst b /\ a + fst b <= e /\ 8 <= fst b.
Proof.
  induction bs as [|[sz stt] rest IH]; intros p a b Ht Hin He Hp.
  - destruct Hin.
  - pose proof (tiled_size_pos _ _ _ _ _ _ Ht) as H8.
    cbn [tiled] in Ht. destruct Ht as (Hpos & Hle & Hsz & _ & _ & _ & Hrest).
    cbn [layout fst] in Hin. destruct Hin as [Heq|Hin].
    + injection Heq as <- <-. cbn [fst]. repeat split; try assumption; lia.
    + rewrite wrap_small in Hin by lia.
      destruct (IH _ _ _ Hrest Hin He ltac:(lia)) as (? & ? & ? & ?).
      repeat split; try assumption; lia.
Qed.

(** Handing out a block keeps the heap tiled: [place] applied to a block
    of the heap that is at least as large as the adjusted size turns it
    into an allocated block of exactly that size, followed by a free block
    holding the rest when the block was larger; every other block keeps
    its tags. *)
Lemma place_keeps_tiling (m : memory) (p e h asize : Z)
        (bs : list (Z * Z)) (b : Z * Z) :
  0 <= p -> e < WORD_MOD ->
  tiled m p bs e ->
  In (h, b) (layout p bs) ->
  16 <= asize <= fst b -> asize mod 8 = 0 ->
  tiled (place m (h + TYPE_SIZE) asize) p (split_at h asize p bs) e.
Proof.
  intros Hp He Ht Hin Ha H8. unfold TYPE_SIZE.
  destruct (layout_tag _ _ _ _ _ _ Ht Hin He Hp) as (Hh & Hsz & Hext & _).
  assert (Hw : h + GET_SIZE m h < WORD_MOD) by lia.
  assert (Ha' : 16 <= asize <= GET_SIZE m h) by lia.
  assert (H0 : 0 <= h) by lia.
  revert p Hp Ht Hin Hh.
  induction bs as [|[sz stt] rest IH]; intros p Hp Ht Hin Hh.
  - destruct Hin.
  - pose proof (tiled_size_pos _ _ _ _ _ _ Ht) as Hs8.
    pose proof Ht as Ht0.
    cbn [tiled] in Ht. destruct Ht as (Hpos & Hle & Hsz0 & Hst0 & Hfs & Hft & Hrest).
    cbn [split_at fst]. cbn [layout fst] in Hin.
    rewrite (wrap_small (p + sz)) in * by lia.
    destruct (p =? h) eqn:Eph.
    + apply Z.eqb_eq in Eph. subst p.
      assert (Eb : fst b = sz) by (rewrite <- Hsz, Hsz0; reflexivity).
      assert (Hrest' : tiled (place m (h + 8) asize) (h + sz) rest e).
      { apply (tiled_ext m); [exact Hrest|].
        intros q Hq1 Hq2. apply place_frame; try assumption. rewrite Hsz0. lia. }
      destruct (place_tags_in_block m h asize H0 Hw Ha' H8)
        as (T1 & T2 & T3 & T4 & T5).
      rewrite Hsz0 in T5.
      destruct (sz >? asize) eqn:Eg.
      * apply Z.gtb_lt in Eg. destruct (T5 Eg) as (T6 & T7 & T8 & T9).
        cbn [tiled]. unfold TYPE_SIZE.
        replace (h + asize + (sz - asize)) with (h + sz) by lia.
        repeat split; try assumption; lia.
      * rewrite Z.gtb_ltb in Eg. apply Z.ltb_ge in Eg.
        assert (asize = sz) by lia. subst asize.
        cbn [tiled]. unfold TYPE_SIZE. repeat split; try assumption; lia.
    + apply Z.eqb_neq in Eph.
      destruct Hin as [Heq|Hin]; [injection Heq as Hph _; contradiction|].
      destruct (layout_tag _ _ _ _ _ _ Hrest Hin He ltac:(lia)) as (Hh' & _).
      assert (Hf : forall q, q + 8 <= h -> GET (place m (h + 8) asize) q = GET m q).
      { intros q Hq. apply place_frame; try assumption. left. exact Hq. }
      cbn [tiled]. unfold GET_SIZE, GET_STATUS, TYPE_SIZE in *.
      rewrite !Hf by lia.
      repeat split; try assumption.
      apply IH; try assumption. lia.
Qed.

(** ** mm_malloc served from a free block *)

Lemma first_fit_in_layout size bs :
  forall p a, first_fit size p bs = Some a ->
              exists b, In (a, b) (layout p bs) /\ size <= fst b /\ snd b <> ALLOC.
Proof.
  induction bs as [|b rest IH]; intros p a Hf.
  - discriminate Hf.
  - cbn [first_fit] in Hf. cbn [layout]. destruct (fits size b) eqn:Ef.
    + injection Hf as <-. apply fits_iff in Ef. exists b.
      split; [left; reflexivity | exact Ef].
    + destruct (IH _ _ Hf) as (c & Hin & Hc). exists c. split; [right; exact Hin | exact Hc].
Qed.

Lemma layout_app l1 l2 :
  forall p, layout p (l1 ++ l2) = layout p l1 ++ layout (walk_end p l1) l2.
Proof.
  induction l1 as [|b rest IH]; intros p.
  - reflexivity.
  - cbn [app layout walk_end]. rewrite IH. reflexivity.
Qed.

Lemma tiled_suffix m bs e :
  e < WORD_MOD ->
  forall p c, 0 <= p -> tiled m p bs e -> In c (map fst (layout p bs)) ->
              exists pre suf, bs = pre ++ suf /\ walk_end p pre = c
                              /\ tiled m c suf e /\ p <= c.
Proof.
  intros He. induction bs as [|[sz stt] rest IH]; intros p c Hp Ht Hin.
  - destruct Hin.
  - cbn [layout map fst] in Hin. destruct Hin as [<-|Hin].
    + exists [], ((sz, stt) :: rest).
      split; [reflexivity|]. split; [reflexivity|]. split; [exact Ht | lia].
    + pose proof (tiled_size_pos _ _ _ _ _ _ Ht) as H8.
      pose proof Ht as Ht0. cbn [tiled] in Ht0.
      destruct Ht0 as (_ & Hle & _ & _ & _ & _ & Hrest).
      rewrite wrap_small in Hin by lia.
      destruct (IH (p + sz) c ltac:(lia) Hrest Hin) as (pre & suf & -> & Hend & Hsuf & Hc).
      exists ((sz, stt) :: pre), suf. cbn [app walk_end fst].
      rewrite wrap_small by lia.
      split; [reflexivity|]. split; [exact Hend|]. split; [exact Hsuf | lia].
Qed.

(** Next fit on the blocks from the cursor on, with the scan started at
    [start]: heap_start for a NULL cursor, the cursor otherwise. *)
Lemma nf_get_free_block_walk fuel size st bs :
  mm_initialized st = true ->
  walk (mem st) (if nf_ptr st =? NULL then heap_start st else nf_ptr st) bs
       (heap_end st) ->
  (List.length bs < fuel)%nat ->
  nf_get_free_block fuel size st =
    match first_fit size (if nf_ptr st =? NULL then heap_start st else nf_ptr st) bs with
    | Some hdrp => Ret (NEXT_PTR void_ptr hdrp, set_nf_ptr st hdrp)
    | None => Ret (NULL, set_nf_ptr st NULL)
    end.
Proof.
  intros Hi Hw Hf. unfold nf_get_free_block. rewrite Hi. cbn [negb].
  set (start := if nf_ptr st =? NULL then heap_start st else nf_ptr st) in *.
  set (st0 := if nf_ptr st =? NULL then set_nf_ptr st (heap_start st) else st).
  assert (E0 : nf_ptr st0 = start /\ mem st0 = mem st /\ heap_end st0 = heap_end st
               /\ forall p, set_nf_ptr st0 p = set_nf_ptr st p).
  { subst st0 start. destruct (nf_ptr st =? NULL); repeat split; reflexivity. }
  destruct E0 as (En & Em & Ee & Es).
  rewrite (nf_loop_walk size bs fuel st0)
    by (try rewrite En, Em, Ee; assumption).
  cbn [bind]. rewrite Es, En. cbn [nf_ptr heap_end set_nf_ptr].
  pose proof (scan_stop_first_fit (mem st) size bs (heap_end st) start Hw) as Hs.
  destruct (first_fit size start bs) as [a|].
  - destruct Hs as [-> Hlt].
    replace (a <? heap_end st) with true by (symmetry; apply Z.ltb_lt; exact Hlt).
    reflexivity.
  - replace (scan_stop size start bs <? heap_end st) with false
      by (symmetry; apply Z.ltb_ge; exact Hs).
    reflexivity.
Qed.

Lemma candidate_fits size minSize b :
  candidate size minSize b = true -> size <= fst b /\ snd b <> ALLOC.
Proof.
  unfold candidate. rewrite !andb_true_iff, Z.leb_le, Z.eqb_eq.
  intros [[H1 H2] _]. split; [exact H1|]. rewrite H2. discriminate.
Qed.

(** What the selected policy answers on a tiled heap: NULL, or the payload
    pointer of a block of the heap that is large enough and not allocated;
    at most the next-fit cursor changes. *)
Lemma locator_on_tiled_heap fuel size st bs :
  mm_initialized st = true ->
  get_free_block st <> None ->
  0 < heap_start st -> heap_end st < WORD_MOD ->
  tiled (mem st) (heap_start st) bs (heap_end st) ->
  (List.length bs < fuel)%nat ->
  nf_ptr st = NULL \/ In (nf_ptr st) (map fst (layout (heap_start st) bs)) ->
  exists r st1,
    call_get_free_block fuel size st = Ret (r, st1)
    /\ mem st1 = mem st /\ heap_start st1 = heap_start st
    /\ heap_end st1 = heap_end st /\ ds st1 = ds st
    /\ (nf_ptr st1 = nf_ptr st \/ nf_ptr st1 = NULL \/ r = nf_ptr st1 + 8)
    /\ (r = NULL
        \/ exists h b, r = h + 8 /\ In (h, b) (layout (heap_start st) bs)
                       /\ size <= fst b /\ snd b <> ALLOC).
Proof.
  intros Hi Hg H0 He Ht Hf Hc.
  assert (H0' : 0 <= heap_start st) by lia.
  destruct (tiled_walk _ bs _ He _ H0' Ht) as (Hw & _ & _ & _).
  assert (Hnext : forall h b, In (h, b) (layout (heap_start st) bs) ->
                              NEXT_PTR void_ptr h = h + 8 /\ h <> NULL).
  { intros h b Hin. destruct (layout_in_tiled _ _ _ _ _ _ Ht Hin He H0') as [H1 H2].
    assert (Hh0 : 0 <= h) by lia. assert (Hh8 : h + 8 < WORD_MOD) by lia.
    destruct (HDRP_NEXT_PTR h Hh0 Hh8) as [E _].
    split; [exact E|]. unfold NULL. lia. }
  unfold call_get_free_block.
  destruct (get_free_block st) as [[| |]|]; [| | |contradiction].
  - (* first fit *)
    rewrite (first_fit_scan fuel size st bs Hi Hw Hf).
    destruct (first_fit size (heap_start st) bs) as [h|] eqn:Eff.
    + destruct (first_fit_in_layout _ _ _ _ Eff) as (b & Hin & Hb1 & Hb2).
      destruct (Hnext h b Hin) as [En _]. rewrite En.
      exists (h + 8), st. repeat split; [left; reflexivity|].
      right. exists h, b. repeat split; assumption.
    + exists NULL, st. repeat split; left; reflexivity.
  - (* next fit *)
    assert (Hsuf : exists pre suf,
               bs = pre ++ suf
               /\ walk_end (heap_start st) pre
                  = (if nf_ptr st =? NULL then heap_start st else nf_ptr st)
               /\ tiled (mem st)
                        (if nf_ptr st =? NULL then heap_start st else nf_ptr st)
                        suf (heap_end st)
               /\ heap_start st
                  <= (if nf_ptr st =? NULL then heap_start st else nf_ptr st)).
    { destruct Hc as [Hn|Hin].
      - rewrite Hn. cbn [Z.eqb NULL]. exists [], bs.
        split; [reflexivity|]. split; [reflexivity|]. split; [exact Ht | lia].
      - destruct (tiled_suffix _ _ _ He _ _ H0' Ht Hin) as (pre & suf & E & E1 & E2 & E3).
        replace (nf_ptr st =? NULL) with false
          by (symmetry; apply Z.eqb_neq; unfold NULL; lia).
        exists pre, suf.
        split; [exact E|]. split; [exact E1|]. split; [exact E2 | exact E3]. }
    destruct Hsuf as (pre & suf & Ebs & Eend & Hts & Hle).
    set (start := if nf_ptr st =? NULL then heap_start st else nf_ptr st) in *.
    assert (Hs0 : 0 <= start) by lia.
    destruct (tiled_walk _ suf _ He _ Hs0 Hts) as (Hws & _ & _ & _).
    assert (Hfs : (List.length suf < fuel)%nat).
    { rewrite Ebs, length_app in Hf. lia. }
    rewrite (nf_get_free_block_walk fuel size st suf Hi Hws Hfs). fold start.
    destruct (first_fit size start suf) as [h|] eqn:Eff.
    + destruct (first_fit_in_layout _ _ _ _ Eff) as (b & Hin & Hb1 & Hb2).
      assert (Hin' : In (h, b) (layout (heap_start st) bs)).
      { rewrite Ebs, layout_app, Eend. apply in_or_app. right. exact Hin. }
      destruct (Hnext h b Hin') as [En _]. rewrite En.
      exists (h + 8), (set_nf_ptr st h). repeat split; [right; right; reflexivity|].
      right. exists h, b. repeat split; assumption.
    + exists NULL, (set_nf_ptr st NULL).
      repeat split; [right; left; reflexivity | left; reflexivity].
  - (* best fit *)
    rewrite (best_fit_scan fuel size st bs Hi Hw Hf).
    destruct (bf_pick_minimal size bs (heap_start st) (HEAP_SIZE st) NULL)
      as [[Hnone Hr] | (pre & b & post & Hl & Hcand & _ & _)].
    + rewrite Hr. cbn [Z.eqb NULL]. exists 0, st. repeat split; left; reflexivity.
    + set (h := bf_pick size (heap_start st) bs (HEAP_SIZE st) NULL) in *.
      assert (Hin : In (h, b) (layout (heap_start st) bs)).
      { rewrite Hl. apply in_or_app. right. left. reflexivity. }
      destruct (Hnext h b Hin) as [En Hn]. rewrite En.
      replace (h =? NULL) with false by (symmetry; apply Z.eqb_neq; exact Hn).
      destruct (candidate_fits _ _ _ Hcand) as [Hb1 Hb2].
      exists (h + 8), st. repeat split; [left; reflexivity|].
      right. exists h, b. repeat split; assumption.
Qed.

(** Splitting a block keeps every header address of the heap. *)
Lemma split_at_keeps_headers m bs e h asize b :
  e < WORD_MOD -> 8 <= asize <= fst b ->
  forall p, 0 <= p -> tiled m p bs e -> In (h, b) (layout p bs) ->
            forall a, In a (map fst (layout p bs)) ->
                      In a (map fst (layout p (split_at h asize p bs))).
Proof.
  intros He Ha. induction bs as [|[sz stt] rest IH]; intros p Hp Ht Hin a Hina.
  - destruct Hina.
  - pose proof (tiled_size_pos _ _ _ _ _ _ Ht) as H8.
    destruct (layout_tag _ _ _ _ _ _ Ht Hin He Hp) as (Hh1 & Hh2 & Hh3 & _).
    pose proof Ht as Ht0. cbn [tiled] in Ht0.
    destruct Ht0 as (_ & Hle & Hsz & _ & _ & _ & Hrest).
    cbn [split_at fst]. cbn [layout map fst] in Hina, Hin.
    rewrite (wrap_small (p + sz)) in * by lia.
    destruct (p =? h) eqn:Eph.
    + apply Z.eqb_eq in Eph. subst p.
      assert (Eb : fst b = sz) by (rewrite <- Hh2, Hsz; reflexivity).
      destruct (sz >? asize) eqn:Eg.
      * apply Z.gtb_lt in Eg. cbn [layout map fst].
        rewrite (wrap_small (h + asize)) by lia.
        replace (h + asize + (sz - asize)) with (h + sz) by lia.
        rewrite (wrap_small (h + sz)) by lia.
        destruct Hina as [<-|Hina]; [left; reflexivity | right; right; exact Hina].
      * rewrite Z.gtb_ltb in Eg. apply Z.ltb_ge in Eg.
        assert (asize = sz) by lia. subst asize.
        cbn [layout map fst]. rewrite (wrap_small (h + sz)) by lia. exact Hina.
    + apply Z.eqb_neq in Eph. cbn [layout map fst].
      rewrite (wrap_small (p + sz)) by lia.
      destruct Hina as [<-|Hina]; [left; reflexivity|]. right.
      destruct Hin as [Heq|Hin]; [injection Heq as Hph _; contradiction|].
      apply IH; try assumption. lia.
Qed.

Lemma malloc_on_tiled_heap (fuel : nat) (n : Z) (st : mm_state) (bs : list (Z * Z)) :
  mm_initialized st = true ->
  get_free_block st <> None ->
  0 < heap_start st -> heap_end st < WORD_MOD ->
  tiled (mem st) (heap_start st) bs (heap_end st) ->
  (List.length bs < fuel)%nat ->
  nf_ptr st = NULL \/ In (nf_ptr st) (map fst (layout (heap_start st) bs)) ->
  0 < n <= WORD_MOD - 48 ->
  (exists st1, call_get_free_block fuel (adjust n) st = Ret (NULL, st1))
  \/
  (exists h b st',
      mm_malloc fuel n st = Ret (h + TYPE_SIZE, st')
      /\ In (h, b) (layout (heap_start st) bs)
      /\ snd b <> ALLOC
      /\ n + 2 * TYPE_SIZE <= adjust n <= fst b
      /\ tiled (mem st') (heap_start st') (split_at h (adjust n) (heap_start st) bs)
               (heap_end st')
      /\ (nf_ptr st' = NULL
          \/ In (nf_ptr st')
                (map fst (layout (heap_start st) (split_at h (adjust n) (heap_start st) bs))))
      /\ heap_start st' = heap_start st
      /\ heap_end st' = heap_end st
      /\ ds st' = ds st).
Proof.
  intros Hi Hg H0 He Ht Hf Hc Hn.
  destruct (adjust_exact n Hn) as (_ & Ha32 & Hab & Hlt).
  destruct (locator_on_tiled_heap fuel (adjust n) st bs Hi Hg H0 He Ht Hf Hc)
    as (r & st1 & Ecall & Em & Ehs & Ehe & Eds & Hnf
        & [Hr | (h & b & Hr & Hin & Hb1 & Hb2)]).
  - left. exists st1. rewrite Ecall, Hr. reflexivity.
  - right. exists h, b, (set_mem st1 (place (mem st1) r (adjust n))).
    assert (H0' : 0 <= heap_start st) by lia.
    destruct (layout_in_tiled _ _ _ _ _ _ Ht Hin He H0') as [H1 H2].
    split.
    { unfold mm_malloc. rewrite Hi. cbn [negb].
      replace (n =? 0) with false by (symmetry; apply Z.eqb_neq; lia).
      rewrite Ecall. cbn [bind].
      replace (r =? NULL) with false
        by (symmetry; apply Z.eqb_neq; unfold NULL; lia).
      cbn [negb]. unfold TYPE_SIZE. rewrite Hr. reflexivity. }
    split; [exact Hin|]. split; [exact Hb2|]. split; [lia|].
    cbn [mem set_mem heap_start heap_end ds nf_ptr]. rewrite Em, Ehs, Ehe, Eds, Hr.
    assert (Ha16 : 16 <= adjust n <= fst b) by (unfold TYPE_SIZE, BS in *; lia).
    split; [|split; [|repeat split]].
    + apply (place_keeps_tiling (mem st) (heap_start st) (heap_end st) h (adjust n) bs b);
        try assumption.
      apply mod32_mod8. exact Ha32.
    + assert (Hkeep : forall a, In a (map fst (layout (heap_start st) bs)) ->
                                In a (map fst (layout (heap_start st)
                                                      (split_at h (adjust n) (heap_start st) bs)))).
      { apply (split_at_keeps_headers (mem st) bs (heap_end st) h (adjust n) b);
          try assumption; lia. }
      destruct Hnf as [E|[E|E]].
      * rewrite E. destruct Hc as [Hc|Hc]; [left; exact Hc | right; apply Hkeep; exact Hc].
      * left. exact E.
      * right. apply Hkeep. replace (nf_ptr st1) with h by lia.
        apply (in_map fst _ (h, b)). exact Hin.
Qed.

(** X11.  mm_malloc keeps the heap tiled when a free block serves the
    request.  On a tiled heap (with the next-fit cursor NULL or on a block
    of the heap), for a request of n bytes, 0 < n <= 2^64 - 48, the
    selected policy returns.  If it answers NULL the heap has to be
    extended.  Otherwise mm_malloc returns the payload pointer of a block
    of the heap that was not allocated and is at least as large as the
    adjusted size; the n bytes fit between its header and footer; the
    block becomes an allocated block of the adjusted size, followed by a
    free block for what is left over; the heap is tiled as before, and
    heap_start, heap_end and the data segment are unchanged. *)
Theorem malloc_keeps_tiling (fuel : nat) (n : Z) (st : mm_state) (bs : list (Z * Z)) :
  mm_initialized st = true ->
  get_free_block st <> None ->
  0 < heap_start st -> heap_end st < WORD_MOD ->
  tiled (mem st) (heap_start st) bs (heap_end st) ->
  (List.length bs < fuel)%nat ->
  nf_ptr st = NULL \/ In (nf_ptr st) (map fst (layout (heap_start st) bs)) ->
  0 < n <= WORD_MOD - 48 ->
  (exists st1, call_get_free_block fuel (adjust n) st = Ret (NULL, st1))
  \/
  (exists h b st',
      mm_malloc fuel n st = Ret (h + TYPE_SIZE, st')
      /\ In (h, b) (layout (heap_start st) bs)
      /\ snd b <> ALLOC
      /\ n + 2 * TYPE_SIZE <= adjust n <= fst b
      /\ tiled (mem st') (heap_start st') (split_at h (adjust n) (heap_start st) bs)
               (heap_end st')
      /\ (nf_ptr st' = NULL
          \/ In (nf_ptr st')
                (map fst (layout (heap_start st) (split_at h (adjust n) (heap_start st) bs))))
      /\ heap_start st' = heap_start st
      /\ heap_end st' = heap_end st
      /\ ds st' = ds st).
Proof.
  apply malloc_on_tiled_heap.
Qed.

Lemma malloc_keeps_tiling_witness :
  (exists st1, call_get_free_block 5 (adjust 40) (three ap_NextFit) = Ret (NULL, st1))
  \/
  (exists h b st',
      mm_malloc 5 40 (three ap_NextFit) = Ret (h + TYPE_SIZE, st')
      /\ In (h, b) (layout (heap_start (three ap_NextFit))
                           [(64, 1); (64, 1); (64, 1); (3840, 0)])
      /\ snd b <> ALLOC
      /\ 40 + 2 * TYPE_SIZE <= adjust 40 <= fst b
      /\ tiled (mem st') (heap_start st')
               (split_at h (adjust 40) (heap_start (three ap_NextFit))
                         [(64, 1); (64, 1); (64, 1); (3840, 0)])
               (heap_end st')
      /\ (nf_ptr st' = NULL
          \/ In (nf_ptr st')
                (map fst (layout (heap_start (three ap_NextFit))
                                 (split_at h (adjust 40) (heap_start (three ap_NextFit))
                                           [(64, 1); (64, 1); (64, 1); (3840, 0)]))))
      /\ heap_start st' = heap_start (three ap_NextFit)
      /\ heap_end st' = heap_end (three ap_NextFit)
      /\ ds st' = ds (three ap_NextFit)).
Proof.
  apply (malloc_keeps_tiling 5 40 (three ap_NextFit)
           [(64, 1); (64, 1); (64, 1); (3840, 0)]).
  - vm_compute. reflexivity.
  - vm_compute. congruence.
  - vm_compute. reflexivity.
  - vm_compute. reflexivity.
  - cbn [tiled]. repeat match goal with |- _ /\ _ => split end; vm_compute; congruence.
  - cbn [List.length]. lia.
  - right. vm_compute. tauto.
  - vm_compute. split; congruence.
Defined.

(** ** Requests close to 2^64 *)

Lemma wrap_once x : WORD_MOD <= x < 2 * WORD_MOD -> wrap x = x - WORD_MOD.
Proof.
  intros H. unfold wrap. symmetry.
  apply (Z.mod_unique x WORD_MOD 1 (x - WORD_MOD)); [left|]; lia.
Qed.

Lemma adjust_wraps n :
  WORD_MOD - 48 < n < WORD_MOD ->
  (n <= WORD_MOD - 16 -> adjust n = 0) /\ (WORD_MOD - 16 < n -> adjust n = BS).
Proof.
  intros Hn. unfold adjust, TYPE_SIZE, BS. rewrite WORD_MOD_eq in Hn.
  split; intros Hc; rewrite ?WORD_MOD_eq in Hc.
  - assert (E : wrap (wrap (n + 2 * 8) - 1) / 32 = 576460752303423487).
    { destruct (Z.eq_dec n (18446744073709551616 - 16)) as [->|Hne].
      - reflexivity.
      - rewrite (wrap_small (n + 2 * 8)) by (rewrite WORD_MOD_eq; lia).
        rewrite wrap_small by (rewrite WORD_MOD_eq; lia).
        symmetry.
        apply (Z.div_unique _ 32 _ (n + 2 * 8 - 1 - 32 * 576460752303423487)); lia. }
    rewrite E. reflexivity.
  - assert (E : wrap (wrap (n + 2 * 8) - 1) / 32 = 0).
    { rewrite (wrap_once (n + 2 * 8)) by (rewrite WORD_MOD_eq; lia).
      rewrite WORD_MOD_eq. rewrite wrap_small by (rewrite WORD_MOD_eq; lia).
      apply Z.div_small. lia. }
    rewrite E. reflexivity.
Qed.

(** X12.  Requests whose adjusted size overflows are not refused.  For
    2^64 - 48 < n < 2^64 the computation of the adjusted size wraps around
    to 0 (n <= 2^64 - 16) or to 32 (above).  When the selected policy
    finds a block for that size, mm_malloc returns it, tagged allocated
    with a size of 0 or 32 bytes, far less than the n bytes asked for. *)
Theorem huge_request_wraps (fuel : nat) (n : Z) (st : mm_state) (r : Z) (st1 : mm_state) :
  WORD_MOD - 48 < n < WORD_MOD ->
  mm_initialized st = true ->
  call_get_free_block fuel (adjust n) st = Ret (r, st1) ->
  r <> NULL ->
  (n <= WORD_MOD - 16 -> adjust n = 0) /\
  (WORD_MOD - 16 < n -> adjust n = BS) /\
  exists st',
    mm_malloc fuel n st = Ret (r, st') /\
    GET_SIZE (mem st') (HDRP void_ptr r) = adjust n /\
    GET_STATUS (mem st') (HDRP void_ptr r) = ALLOC /\
    adjust n < n.
Proof.
  intros Hn Hi Hc Hr.
  destruct (adjust_wraps n Hn) as [A0 A32].
  split; [exact A0|]. split; [exact A32|].
  assert (Hcases : adjust n = 0 \/ adjust n = 32).
  { destruct (Z_le_gt_dec n (WORD_MOD - 16)); [left; apply A0 | right; apply A32]; lia. }
  exists (set_mem st1 (place (mem st1) r (adjust n))).
  split.
  { unfold mm_malloc. rewrite Hi. cbn [negb].
    replace (n =? 0) with false
      by (symmetry; apply Z.eqb_neq; rewrite WORD_MOD_eq in Hn; lia).
    rewrite Hc. cbn [bind].
    replace (r =? NULL) with false by (symmetry; apply Z.eqb_neq; exact Hr).
    reflexivity. }
  cbn [mem set_mem].
  destruct (place_tags (mem st1) r (adjust n)) as [Es Et].
  - destruct Hcases as [->| ->]; rewrite WORD_MOD_eq; lia.
  - destruct Hcases as [->| ->]; reflexivity.
  - destruct Hcases as [->| ->]; lia.
  - split; [exact Es|]. split; [exact Et|].
    rewrite WORD_MOD_eq in Hn. destruct Hcases as [->| ->]; lia.
Qed.

Lemma huge_request_wraps_witness :
  (WORD_MOD - 1 <= WORD_MOD - 16 -> adjust (WORD_MOD - 1) = 0) /\
  (WORD_MOD - 16 < WORD_MOD - 1 -> adjust (WORD_MOD - 1) = BS) /\
  exists st',
    mm_malloc 100 (WORD_MOD - 1) (fresh ap_FirstFit OldBreak) = Ret (4136, st') /\
    GET_SIZE (mem st') (HDRP void_ptr 4136) = adjust (WORD_MOD - 1) /\
    GET_STATUS (mem st') (HDRP void_ptr 4136) = ALLOC /\
    adjust (WORD_MOD - 1) < WORD_MOD - 1.
Proof.
  apply (huge_request_wraps 100 (WORD_MOD - 1) (fresh ap_FirstFit OldBreak) 4136
                            (fresh ap_FirstFit OldBreak)).
  - vm_compute. split; reflexivity.
  - vm_compute. reflexivity.
  - unfold call_get_free_block.
    replace (get_free_block (fresh ap_FirstFit OldBreak)) with (Some ap_FirstFit)
      by (vm_compute; reflexivity).
    unfold ff_get_free_block.
    replace (mm_initialized (fresh ap_FirstFit OldBreak)) with true
      by (vm_compute; reflexivity).
    cbn [negb].
    replace (ff_loop 100 (mem (fresh ap_FirstFit OldBreak))
                     (heap_end (fresh ap_FirstFit OldBreak)) (adjust (WORD_MOD - 1))
                     (heap_start (fresh ap_FirstFit OldBreak)))
      with (Ret (A := Z) 4128) by (vm_compute; reflexivity).
    cbn [bind].
    replace (4128 <? heap_end (fresh ap_FirstFit OldBreak)) with true
      by (vm_compute; reflexivity).
    reflexivity.
  - vm_compute. congruence.
Defined.

(** ** What the operations leave alone *)

Lemma nf_loop_cursor_only size :
  forall fuel st st', nf_loop fuel size st = Ret st' -> st' = set_nf_ptr st (nf_ptr st').
Proof.
  induction fuel as [|f IH]; intros st st' H.
  - discriminate H.
  - cbn [nf_loop] in H.
    destruct ((nf_ptr st <? heap_end st)
              && ((size >? GET_SIZE (mem st) (nf_ptr st))
                  || (GET_STATUS (mem st) (nf_ptr st) =? ALLOC))).
    + apply IH in H. rewrite H at 1. reflexivity.
    + injection H as <-. symmetry. apply set_nf_ptr_same.
Qed.

(** A search changes at most the next-fit cursor. *)
Lemma locator_cursor_only fuel size st r st1 :
  call_get_free_block fuel size st = Ret (r, st1) ->
  st1 = set_nf_ptr st (nf_ptr st1).
Proof.
  unfold call_get_free_block.
  destruct (get_free_block st) as [[| |]|]; [| | |discriminate].
  - unfold ff_get_free_block. destruct (mm_initialized st); [|discriminate].
    cbn [negb].
    destruct (ff_loop fuel (mem st) (heap_end st) size (heap_start st)) as [a| | | |];
      try discriminate.
    cbn [bind]. destruct (a <? heap_end st); intros H; injection H as _ <-;
      symmetry; apply set_nf_ptr_same.
  - unfold nf_get_free_block. destruct (mm_initialized st); [|discriminate].
    cbn [negb].
    set (st0 := if nf_ptr st =? NULL then set_nf_ptr st (heap_start st) else st).
    assert (E0 : forall p, set_nf_ptr st0 p = set_nf_ptr st p)
      by (subst st0; destruct (nf_ptr st =? NULL); reflexivity).
    destruct (nf_loop fuel size st0) as [s1| | | |] eqn:El; try discriminate.
    cbn [bind]. apply nf_loop_cursor_only in El.
    destruct (nf_ptr s1 <? heap_end s1); intros H; injection H as _ <-.
    + rewrite El at 1. apply E0.
    + rewrite El. cbn [set_nf_ptr nf_ptr ds mem ds_heap_start ds_heap_brk heap_start
                        heap_end PAGESIZE get_free_block mm_initialized mm_loglevel].
      rewrite <- (E0 NULL). reflexivity.
  - unfold bf_get_free_block. destruct (mm_initialized st); [|discriminate].
    cbn [negb].
    destruct (bf_loop fuel (mem st) (heap_end st) size (heap_start st) (HEAP_SIZE st) NULL)
      as [a| | | |]; try discriminate.
    cbn [bind]. destruct (negb (a =? NULL)); intros H; injection H as _ <-;
      symmetry; apply set_nf_ptr_same.
Qed.

Lemma extend_configuration asize st bp st' :
  extend asize st = Ret (bp, st') ->
  same_configuration st st' /\ nf_ptr st' = nf_ptr st.
Proof.
  unfold extend.
  destruct (ds_sbrk (ds st) (MAX asize CHUNKSIZE)) as [b d1].
  destruct (ds_sbrk d1 0) as [brk d2].
  destruct (brk =? SBRK_FAILED); [discriminate|].
  destruct (b =? SBRK_FAILED); [discriminate|].
  intros H. injection H as _ <-. unfold same_configuration. repeat split.
Qed.

Lemma mm_malloc_configuration fuel n st bp st' :
  mm_malloc fuel n st = Ret (bp, st') -> same_configuration st st'.
Proof.
  unfold mm_malloc. destruct (mm_initialized st); [|discriminate]. cbn [negb].
  destruct (n =? 0).
  { intros H. injection H as _ <-. unfold same_configuration. repeat split. }
  destruct (call_get_free_block fuel (adjust n) st) as [[r st1]| | | |] eqn:Ec;
    try discriminate.
  cbn [bind]. apply locator_cursor_only in Ec.
  destruct (negb (r =? NULL)).
  - intros H. injection H as _ <-. rewrite Ec. unfold same_configuration. repeat split.
  - intros H. apply extend_configuration in H. destruct H as [H _].
    rewrite Ec in H. exact H.
Qed.

(** X13.  What the operations leave alone.  Whenever they return,
    mm_malloc and mm_calloc leave heap_start, the selected policy, the
    initialized flag, the recorded start of the data segment, the page
    size and the log level as they were; mm_free in addition leaves
    heap_end, the data segment and the next-fit cursor untouched;
    mm_realloc changes nothing at all and returns NULL. *)
Theorem operations_keep_configuration (st : mm_state) :
  (forall fuel n bp st', mm_malloc fuel n st = Ret (bp, st') ->
                         same_configuration st st') /\
  (forall fuel nmemb size bp st', mm_calloc fuel nmemb size st = Ret (bp, st') ->
                                  same_configuration st st') /\
  (forall ptr st', mm_free ptr st = Ret st' ->
                   same_configuration st st' /\ heap_end st' = heap_end st
                   /\ ds st' = ds st /\ ds_heap_brk st' = ds_heap_brk st
                   /\ nf_ptr st' = nf_ptr st) /\
  (forall ptr size bp st', mm_realloc ptr size st = Ret (bp, st') ->
                           bp = NULL /\ st' = st).
Proof.
  split; [|split; [|split]].
  - intros fuel n bp st'. apply mm_malloc_configuration.
  - intros fuel nmemb size bp st'. unfold mm_calloc.
    destruct (mm_initialized st); [|discriminate]. cbn [negb].
    destruct (mm_malloc fuel (wrap (nmemb * size)) st) as [[p s1]| | | |] eqn:Em;
      try discriminate.
    cbn [bind]. apply mm_malloc_configuration in Em.
    destruct (negb (p =? NULL)).
    + unfold memset. destruct (p + wrap (nmemb * size) <=? WORD_MOD);
        cbn [bind]; [|discriminate].
      intros H; injection H as _ <-; exact Em.
    + intros H; injection H as _ <-; exact Em.
  - intros ptr st'. unfold mm_free.
    destruct (mm_initialized st); [|discriminate]. cbn [negb].
    destruct (GET_STATUS (mem st) (HDRP void_ptr ptr) =? 0); [discriminate|].
    intros Hf.
    repeat match type of Hf with
           | (if ?c then _ else _) = _ => destruct c
           end;
      injection Hf as <-; unfold same_configuration; repeat split.
  - intros ptr size bp st'. unfold mm_realloc.
    destruct (mm_initialized st); [|discriminate]. cbn [negb].
    intros H. injection H as <- <-. split; reflexivity.
Qed.

Lemma operations_keep_configuration_witness :
  same_configuration (fresh ap_NextFit OldBreak) (grown ap_NextFit OldBreak) /\
  same_configuration (three ap_FirstFit) three_freed.
Proof.
  split.
  - apply (proj1 (operations_keep_configuration (fresh ap_NextFit OldBreak))
             100%nat 5000 8192).
    apply returned_malloc. vm_compute. reflexivity.
  - refine (proj1 (proj1 (proj2 (proj2 (operations_keep_configuration (three ap_FirstFit))))
                         4264 three_freed _)).
    apply returned_free. vm_compute. reflexivity.
Defined.

(** ** mm_malloc when the data segment is exhausted *)

Lemma MAX_CHUNKSIZE_pos asize : 0 < MAX asize CHUNKSIZE.
Proof.
  destruct (MAX_cases asize CHUNKSIZE) as [[-> H]|[-> _]];
    change CHUNKSIZE with 4096 in *; lia.
Qed.

(** The data segment has room: the heap is extended and the call returns
    the address ds_sbrk handed back. *)
Lemma extend_grows asize st :
  ds_ok (ds st) ->
  ds_break (ds st) + MAX asize CHUNKSIZE <= ds_limit (ds st) ->
  exists st',
    extend asize st
    = Ret (match ds_convention (ds st) with
           | OldBreak => ds_break (ds st)
           | NewBreak => ds_break (ds st) + MAX asize CHUNKSIZE
           end, st')
    /\ ds_break (ds st') = ds_break (ds st) + MAX asize CHUNKSIZE
    /\ nf_ptr st' = nf_ptr st.
Proof.
  intros Hok Hle. pose proof Hok as (H0 & H1 & H2 & H3).
  pose proof (MAX_CHUNKSIZE_pos asize) as Hx.
  unfold extend. rewrite ds_sbrk_grows by exact Hle.
  match goal with
  | |- context [ds_sbrk ?d 0] =>
      assert (Hok1 : ds_ok d)
        by (unfold ds_ok; cbn [ds_start ds_break ds_limit]; lia);
      destruct (ds_sbrk_0 d Hok1) as [E0 N0]; rewrite E0
  end.
  cbn [ds_break] in N0 |- *.
  replace (ds_break (ds st) + MAX asize CHUNKSIZE =? SBRK_FAILED) with false
    by (symmetry; apply Z.eqb_neq; exact N0).
  replace (match ds_convention (ds st) with
           | OldBreak => ds_break (ds st)
           | NewBreak => ds_break (ds st) + MAX asize CHUNKSIZE
           end =? SBRK_FAILED) with false
    by (symmetry; apply Z.eqb_neq; destruct (ds_convention (ds st)); lia).
  eexists. split; [reflexivity|]. split; reflexivity.
Qed.

(** The data segment has no room: no PANIC, the code goes on with the
    error value and ends in the invalid store. *)
Lemma extend_refused asize st :
  ds_ok (ds st) ->
  ds_limit (ds st) < ds_break (ds st) + MAX asize CHUNKSIZE ->
  extend asize st = Fault.
Proof.
  intros Hok Hgt. unfold extend. rewrite ds_sbrk_refuses by exact Hgt.
  destruct (ds_sbrk_0 _ Hok) as [E0 N0]. rewrite E0.
  replace (ds_break (ds st) =? SBRK_FAILED) with false
    by (symmetry; apply Z.eqb_neq; exact N0).
  rewrite Z.eqb_refl. reflexivity.
Qed.

(** X14.  Exhaustion of the data segment is never diagnosed.  mm_malloc
    tests the result of ds_sbrk(0), not that of ds_sbrk(xsize): on a
    usable data segment it never ends in PANIC.  When no block fits and
    the segment cannot grow by MAX(adjusted size, CHUNKSIZE) bytes, the
    code goes on with the error value (void* )-1 as the address of the new
    block, and the call ends in the invalid store through HDRP((void* )-1)
    instead of the diagnostic "Cannot extend heap". *)
Theorem malloc_ignores_failed_growth (fuel : nat) (n : Z) (st : mm_state) :
  mm_initialized st = true ->
  ds_ok (ds st) ->
  (forall func msg, mm_malloc fuel n st <> Panic func msg) /\
  (forall st1,
     n <> 0 ->
     call_get_free_block fuel (adjust n) st = Ret (NULL, st1) ->
     ds_limit (ds st) < ds_break (ds st) + MAX (adjust n) CHUNKSIZE ->
     mm_malloc fuel n st = Fault).
Proof.
  intros Hi Hok.
  assert (Hext : forall r st1,
             call_get_free_block fuel (adjust n) st = Ret (r, st1) -> ds st1 = ds st).
  { intros r st1 Hc. apply locator_cursor_only in Hc. rewrite Hc. reflexivity. }
  split.
  - intros func msg. unfold mm_malloc. rewrite Hi. cbn [negb].
    destruct (n =? 0); [discriminate|].
    destruct (call_get_free_block fuel (adjust n) st) as [[r st1]| f s | | |] eqn:Ec;
      cbn [bind]; try discriminate.
    + destruct (negb (r =? NULL)); [discriminate|].
      assert (Hok1 : ds_ok (ds st1)) by (rewrite (Hext r st1 eq_refl); exact Hok).
      destruct (Z_le_gt_dec (ds_break (ds st1) + MAX (adjust n) CHUNKSIZE)
                            (ds_limit (ds st1))) as [Hle|Hgt].
      * destruct (extend_grows (adjust n) st1 Hok1 Hle) as (st' & E & _).
        rewrite E. discriminate.
      * rewrite (extend_refused (adjust n) st1 Hok1) by lia. discriminate.
    + exfalso. revert Ec. unfold call_get_free_block.
      destruct (get_free_block st) as [[| |]|]; try discriminate.
      * unfold ff_get_free_block. rewrite Hi. cbn [negb].
        destruct (ff_loop fuel (mem st) (heap_end st) (adjust n) (heap_start st))
          as [a| ? ? | | |] eqn:El; cbn [bind]; try discriminate.
        -- destruct (a <? heap_end st); discriminate.
        -- exfalso. revert El. clear. generalize (heap_start st).
           induction fuel as [|k IH]; intros p; cbn [ff_loop]; [discriminate|].
           destruct ((p <? heap_end st)
                     && ((adjust n >? GET_SIZE (mem st) p)
                         || (GET_STATUS (mem st) p =? ALLOC))); [apply IH|discriminate].
      * unfold nf_get_free_block. rewrite Hi. cbn [negb].
        match goal with
        | |- context [nf_loop fuel ?sz ?s0] =>
            destruct (nf_loop fuel sz s0) as [s1| ? ? | | |] eqn:El;
              cbn [bind]; try discriminate;
              [destruct (nf_ptr s1 <? heap_end s1); discriminate|];
              exfalso; revert El; generalize s0
        end.
        clear. induction fuel as [|k IH]; intros s0; cbn [nf_loop]; [discriminate|].
        destruct ((nf_ptr s0 <? heap_end s0)
                  && ((adjust n >? GET_SIZE (mem s0) (nf_ptr s0))
                      || (GET_STATUS (mem s0) (nf_ptr s0) =? ALLOC)));
          [apply IH|discriminate].
      * unfold bf_get_free_block. rewrite Hi. cbn [negb].
        destruct (bf_loop fuel (mem st) (heap_end st) (adjust n) (heap_start st)
                          (HEAP_SIZE st) NULL) as [a| ? ? | | |] eqn:El;
          cbn [bind]; try discriminate.
        -- destruct (negb (a =? NULL)); discriminate.
        -- exfalso. revert El. clear.
           generalize (heap_start st) (HEAP_SIZE st) NULL.
           induction fuel as [|k IH]; intros p ms bp; cbn [bf_loop]; [discriminate|].
           destruct (p <? heap_end st); [|discriminate].
           destruct ((adjust n <=? GET_SIZE (mem st) p)
                     && (GET_STATUS (mem st) p =? FREE));
             [destruct (GET_SIZE (mem st) p <? ms)|]; apply IH.
  - intros st1 Hn Hc Hlim.
    assert (Eds : ds st1 = ds st) by (apply (Hext NULL); exact Hc).
    assert (Hok1 : ds_ok (ds st1)) by (rewrite Eds; exact Hok).
    unfold mm_malloc. rewrite Hi. cbn [negb].
    replace (n =? 0) with false by (symmetry; apply Z.eqb_neq; exact Hn).
    rewrite Hc. cbn [bind negb Z.eqb NULL].
    apply (extend_refused (adjust n) st1 Hok1). rewrite Eds. exact Hlim.
Qed.

Lemma malloc_ignores_failed_growth_witness :
  mm_malloc 100 5000 confined = Fault.
Proof.
  apply (proj2 (malloc_ignores_failed_growth 100 5000 confined eq_refl
                  ltac:(repeat split; vm_compute; congruence))
           confined).
  - lia.
  - unfold call_get_free_block.
    replace (get_free_block confined) with (Some ap_FirstFit)
      by (vm_compute; reflexivity).
    unfold ff_get_free_block.
    replace (mm_initialized confined) with true by (vm_compute; reflexivity).
    cbn [negb].
    replace (ff_loop 100 (mem confined) (heap_end confined) (adjust 5000)
                     (heap_start confined))
      with (Ret (A := Z) 8160) by (vm_compute; reflexivity).
    cbn [bind].
    replace (8160 <? heap_end confined) with false by (vm_compute; reflexivity).
    reflexivity.
  - vm_compute. reflexivity.
Defined.

(** ** mm_calloc on a tiled heap *)

Lemma GET_memset0_apart m p n q :
  q + 8 <= p \/ p + n <= q -> GET (memset0 m p n) q = GET m q.
Proof.
  intros H. unfold GET. apply load_bytes_ext. intros a Ha. unfold memset0.
  replace ((p <=? a) && (a <? p + n)) with false; [reflexivity|].
  symmetry. apply andb_false_iff.
  destruct H; [left; apply Z.leb_gt | right; apply Z.ltb_ge]; lia.
Qed.

(** Zero-filling inside the payload of one block leaves every tag alone. *)
Lemma tiled_memset0 m bs e hb b a n :
  e < WORD_MOD -> hb + 8 <= a -> a + n <= hb + fst b - 8 ->
  forall p, 0 <= p -> tiled m p bs e -> In (hb, b) (layout p bs) ->
            tiled (memset0 m a n) p bs e.
Proof.
  intros He Ha1 Ha2. induction bs as [|[sz stt] rest IH]; intros p Hp Ht Hin.
  - destruct Hin.
  - pose proof (tiled_size_pos _ _ _ _ _ _ Ht) as H8.
    pose proof Ht as Ht0. cbn [tiled] in Ht0.
    destruct Ht0 as (Hpos & Hle & Hsz & Hst & Hfs & Hft & Hrest).
    cbn [layout fst] in Hin. rewrite (wrap_small (p + sz)) in Hin by lia.
    cbn [tiled]. unfold GET_SIZE, GET_STATUS, TYPE_SIZE in *.
    destruct Hin as [Heq|Hin].
    + injection Heq as <- <-. cbn [fst] in Ha2.
      rewrite !GET_memset0_apart by lia.
      repeat split; try assumption.
      apply (tiled_ext m); [exact Hrest|].
      intros q Hq1 Hq2. apply GET_memset0_apart. lia.
    + destruct (layout_tag _ _ _ _ _ _ Hrest Hin He ltac:(lia)) as (Hh & _).
      rewrite !GET_memset0_apart by lia.
      repeat split; try assumption.
      apply IH; [lia | exact Hrest | exact Hin].
Qed.

Lemma split_at_block m bs e h asize b :
  e < WORD_MOD -> 8 <= asize <= fst b ->
  forall p, 0 <= p -> tiled m p bs e -> In (h, b) (layout p bs) ->
            In (h, (asize, ALLOC)) (layout p (split_at h asize p bs)).
Proof.
  intros He Ha. induction bs as [|[sz stt] rest IH]; intros p Hp Ht Hin.
  - destruct Hin.
  - pose proof (tiled_size_pos _ _ _ _ _ _ Ht) as H8.
    pose proof Ht as Ht0. cbn [tiled] in Ht0.
    destruct Ht0 as (_ & Hle & _ & _ & _ & _ & Hrest).
    cbn [split_at fst]. cbn [layout fst] in Hin.
    rewrite (wrap_small (p + sz)) in * by lia.
    destruct (p =? h) eqn:Eph.
    + apply Z.eqb_eq in Eph. subst p.
      destruct (sz >? asize); left; reflexivity.
    + apply Z.eqb_neq in Eph.
      destruct Hin as [Heq|Hin]; [injection Heq as Hph _; contradiction|].
      cbn [layout fst]. rewrite (wrap_small (p + sz)) by lia.
      right. apply IH; [lia | exact Hrest | exact Hin].
Qed.



(** ** mm_calloc and the wrapped byte count *)




(** X15.  mm_calloc keeps the heap tiled.  On a tiled heap, when a free
    block serves the wrapped byte count n = nmemb * size mod 2^64,
    0 < n <= 2^64 - 48, mm_calloc returns the payload pointer of that
    block, the n bytes from the pointer on read zero, and the zero-fill
    touches no tag: the heap is tiled by the same blocks mm_malloc leaves
    behind. *)
Theorem calloc_keeps_tiling (fuel : nat) (nmemb size : Z) (st : mm_state)
        (bs : list (Z * Z)) :
  mm_initialized st = true ->
  get_free_block st <> None ->
  0 < heap_start st -> heap_end st < WORD_MOD ->
  tiled (mem st) (heap_start st) bs (heap_end st) ->
  (List.length bs < fuel)%nat ->
  nf_ptr st = NULL \/ In (nf_ptr st) (map fst (layout (heap_start st) bs)) ->
  0 < wrap (nmemb * size) <= WORD_MOD - 48 ->
  (exists st1,
      call_get_free_block fuel (adjust (wrap (nmemb * size))) st = Ret (NULL, st1))
  \/
  (exists h b st',
      mm_calloc fuel nmemb size st = Ret (h + TYPE_SIZE, st')
      /\ In (h, b) (layout (heap_start st) bs)
      /\ (forall a, h + TYPE_SIZE <= a < h + TYPE_SIZE + wrap (nmemb * size) ->
                    mem st' a = 0)
      /\ tiled (mem st') (heap_start st')
               (split_at h (adjust (wrap (nmemb * size))) (heap_start st) bs)
               (heap_end st')).
Proof.
  intros Hi Hg H0 He Ht Hf Hc Hn.
  set (n := wrap (nmemb * size)) in *.
  destruct (malloc_on_tiled_heap fuel n st bs Hi Hg H0 He Ht Hf Hc Hn)
    as [Hnull | (h & b & st1 & Em & Hin & Hb & Hsz & Ht1 & _ & Ehs & Ehe & _)].
  - left. exact Hnull.
  - right. exists h, b, (set_mem st1 (memset0 (mem st1) (h + TYPE_SIZE) n)).
    assert (H0' : 0 <= heap_start st) by lia.
    destruct (layout_in_tiled _ _ _ _ _ _ Ht Hin He H0') as [H1 H2].
    split.
    { unfold mm_calloc. rewrite Hi. cbn [negb]. fold n. rewrite Em. cbn [bind].
      replace (h + TYPE_SIZE =? NULL) with false
        by (symmetry; apply Z.eqb_neq; unfold NULL, TYPE_SIZE; lia).
      cbn [negb].
      destruct (layout_tag _ _ _ _ _ _ Ht Hin He H0') as (_ & _ & Hext & _).
      rewrite memset_in_range by (unfold TYPE_SIZE in *; lia).
      reflexivity. }
    split; [exact Hin|]. cbn [mem set_mem heap_start heap_end]. split.
    + intros a Ha. apply memset0_zero. exact Ha.
    + rewrite Ehs, Ehe in *.
      assert (Ha8 : 8 <= adjust n <= fst b) by (unfold TYPE_SIZE in *; lia).
      apply (tiled_memset0 (mem st1) _ (heap_end st) h (adjust n, ALLOC));
        try assumption.
      * unfold TYPE_SIZE. lia.
      * cbn [fst]. unfold TYPE_SIZE in *. lia.
      * apply (split_at_block (mem st) bs (heap_end st) h (adjust n) b); assumption.
Qed.

Lemma calloc_keeps_tiling_witness :
  (exists st1,
      call_get_free_block 5 (adjust (wrap (5 * 8))) (three ap_FirstFit) = Ret (NULL, st1))
  \/
  (exists h b st',
      mm_calloc 5 5 8 (three ap_FirstFit) = Ret (h + TYPE_SIZE, st')
      /\ In (h, b) (layout (heap_start (three ap_FirstFit))
                           [(64, 1); (64, 1); (64, 1); (3840, 0)])
      /\ (forall a, h + TYPE_SIZE <= a < h + TYPE_SIZE + wrap (5 * 8) -> mem st' a = 0)
      /\ tiled (mem st') (heap_start st')
               (split_at h (adjust (wrap (5 * 8))) (heap_start (three ap_FirstFit))
                         [(64, 1); (64, 1); (64, 1); (3840, 0)])
               (heap_end st')).
Proof.
  apply (calloc_keeps_tiling 5 5 8 (three ap_FirstFit)
           [(64, 1); (64, 1); (64, 1); (3840, 0)]).
  - vm_compute. reflexivity.
  - vm_compute. congruence.
  - vm_compute. reflexivity.
  - vm_compute. reflexivity.
  - cbn [tiled]. repeat match goal with |- _ /\ _ => split end; vm_compute; congruence.
  - cbn [List.length]. lia.
  - left. vm_compute. reflexivity.
  - vm_compute. split; congruence.
Defined.

(** ** The first search after mm_init *)

(** X16.  The initial block and the three policies.  Right after mm_init,
    on any data segment that gave the first chunk, first fit returns the
    payload of the initial free block for every request up to HEAP_SIZE,
    and so does next fit when its cursor is NULL, leaving the cursor on
    that block; best fit returns NULL for every request, because no block
    is smaller than HEAP_SIZE. *)
Theorem initial_block_and_policies (ap : AllocationPolicy) (st st' : mm_state)
        (fuel : nat) (size : Z) :
  ds_ok (ds st) ->
  ds_start (ds st) <> NULL ->
  ds_break (ds st) = ds_start (ds st) ->
  ds_pagesize (ds st) <> 0 ->
  ds_start (ds st) + CHUNKSIZE <= ds_limit (ds st) ->
  mm_init ap st = Ret st' ->
  (1 < fuel)%nat ->
  bf_get_free_block fuel size st' = Ret (NULL, st') /\
  (size <= HEAP_SIZE st' ->
   ff_get_free_block fuel size st' = Ret (heap_start st' + TYPE_SIZE, st') /\
   (nf_ptr st = NULL ->
    nf_get_free_block fuel size st'
    = Ret (heap_start st' + TYPE_SIZE, set_nf_ptr st' (heap_start st')))).
Proof.
  intros Hok Hs Hb Hp Hl Hinit Hf.
  destruct (mm_init_layout ap st st' Hok Hs Hb Hp Hl Hinit)
    as (Ht & Hsz & _ & _ & _ & Hi & Hnf).
  destruct (mm_init_shape ap st Hok Hs Hb Hp Hl) as (E & Bhs & Bhe & _ & _).
  cbv zeta in E, Bhs, Bhe. rewrite E in Hinit. injection Hinit as Est.
  assert (Ehs : heap_start st' = BS * (ds_start (ds st) / BS + 1))
    by (rewrite <- Est; reflexivity).
  assert (Ehe : heap_end st' = BS * ((ds_start (ds st) + CHUNKSIZE - 1) / BS))
    by (rewrite <- Est; reflexivity).
  clear Est E. rewrite <- Ehs in Bhs. rewrite <- Ehe in Bhe.
  pose proof Hok as (H0 & H1 & H2 & H3).
  unfold SBRK_FAILED in H3. rewrite WORD_MOD_eq in H3.
  change CHUNKSIZE with 4096 in *. unfold BS in Bhs, Bhe, Hsz.
  assert (H0' : 0 <= heap_start st') by lia.
  assert (He : heap_end st' < WORD_MOD) by (rewrite WORD_MOD_eq; lia).
  destruct (tiled_walk _ _ _ He _ H0' Ht) as (Hw & _ & _ & _).
  assert (Hlen : (List.length [(HEAP_SIZE st', FREE)] < fuel)%nat)
    by (cbn [List.length]; lia).
  destruct (HDRP_NEXT_PTR (heap_start st') H0' ltac:(rewrite WORD_MOD_eq; lia))
    as [En _].
  split.
  - rewrite (best_fit_scan fuel size st' _ Hi Hw Hlen).
    cbn [bf_pick]. unfold candidate. cbn [fst snd].
    rewrite Z.ltb_irrefl, andb_false_r. reflexivity.
  - intros Hle.
    assert (Efit : fits size (HEAP_SIZE st', FREE) = true).
    { apply fits_iff. cbn [fst snd]. split; [exact Hle | discriminate]. }
    split.
    + rewrite (first_fit_scan fuel size st' _ Hi Hw Hlen).
      cbn [first_fit]. rewrite Efit, En. reflexivity.
    + intros Hn. rewrite <- Hnf in Hn.
      assert (Hw' : walk (mem st')
                         (if nf_ptr st' =? NULL then heap_start st' else nf_ptr st')
                         [(HEAP_SIZE st', FREE)] (heap_end st'))
        by (rewrite Hn; exact Hw).
      rewrite (nf_get_free_block_walk fuel size st' _ Hi Hw' Hlen).
      rewrite Hn. cbn [Z.eqb NULL first_fit]. rewrite Efit, En. reflexivity.
Qed.

Lemma initial_block_and_policies_witness :
  bf_get_free_block 2 64 (fresh ap_BestFit OldBreak)
    = Ret (NULL, fresh ap_BestFit OldBreak) /\
  (64 <= HEAP_SIZE (fresh ap_BestFit OldBreak) ->
   ff_get_free_block 2 64 (fresh ap_BestFit OldBreak)
     = Ret (heap_start (fresh ap_BestFit OldBreak) + TYPE_SIZE, fresh ap_BestFit OldBreak) /\
   (nf_ptr (boot (region OldBreak) zero_memory) = NULL ->
    nf_get_free_block 2 64 (fresh ap_BestFit OldBreak)
    = Ret (heap_start (fresh ap_BestFit OldBreak) + TYPE_SIZE,
           set_nf_ptr (fresh ap_BestFit OldBreak)
                      (heap_start (fresh ap_BestFit OldBreak))))).
Proof.
  apply (initial_block_and_policies ap_BestFit (boot (region OldBreak) zero_memory)).
  - repeat split; vm_compute; congruence.
  - vm_compute; congruence.
  - reflexivity.
  - vm_compute; congruence.
  - vm_compute; congruence.
  - apply returned_init. vm_compute. reflexivity.
  - lia.
Defined.
